(** * Web-vitals metric engine of sharing-monitor: a shallow embedding

    The development follows [packages/browser-utils/src/metrics]:
    - [lib/bindReporter.ts]  ([getRating], [bindReporter]),
    - [lib/initMetric.ts], [lib/getActivationStart.ts], [lib/bfcache.ts],
    - [onCLS.ts]             (the session windowing of layout shifts),
    - [onTTFB.ts],
    - [lib/interactions.ts]  (the ten longest interactions and the p98 pick).

    JavaScript numbers are modelled by the rationals [Q]: every finite double
    is a rational and comparisons are exact.  In the session windowing of
    [onCLS.ts], where the code tests a difference of start times against a
    bound and accumulates a sum, the operations are the double-precision
    ones, [Num.sub] and [Num.add]: the exact result rounded to the nearest
    double, ties to even.  Elsewhere a difference stands for the exact value
    of its expression: the guards test its sign only, which is the same on
    doubles.  NaN, the infinities and the sign of zero are outside the model.
    Numeric equality is [Qeq] (written [==]).  Mutable closures become
    explicit state; the consumer callback becomes a log of the records it was
    invoked with. *)

From Stdlib Require Import QArith ZArith List Lia Lqa Sorted Permutation.
From Stdlib Require Import Qround Qpower.
From stdpp Require Import gmap list option strings.

Import ListNotations.

(** ** JavaScript comparisons on numbers *)

Module Num.

Definition gtb (x y : Q) : bool := negb (Qle_bool x y).
Definition ltb (x y : Q) : bool := negb (Qle_bool y x).
Definition eqb (x y : Q) : bool := Qeq_bool x y.

(** [Math.max] on two numbers. *)
Definition max (x y : Q) : Q := if gtb x y then x else y.

(** Truthiness of an optional boolean argument ([undefined] is falsy). *)
Definition truthy (o : option bool) : bool :=
  match o with Some b => b | None => false end.

(** *** Double-precision arithmetic

    A double is [k * 2^e] with [|k| < 2^53] and [-1074 <= e].  The sum and the
    difference of two doubles are the exact results rounded to the nearest
    double, ties to the even significand (IEEE 754 binary64, the arithmetic of
    a JavaScript number), as long as the result stays finite. *)

Local Open Scope Q_scope.

Definition pow2 (e : Z) : Q := 2 ^ e.

(** [floor (log2 x)], for [0 < x]. *)
Definition flog2 (x : Q) : Z :=
  let e := (Z.log2 (Qnum x) - Z.log2 (Zpos (Qden x)))%Z in
  if Qle_bool (pow2 e) x then e else (e - 1)%Z.

(** The nearest integer, ties to even. *)
Definition rne (m : Q) : Z :=
  let f := Qfloor m in
  match Qcompare (m - inject_Z f) (1 # 2) with
  | Lt => f
  | Gt => (f + 1)%Z
  | Eq => if Z.even f then f else (f + 1)%Z
  end.

(** The exponent of the last place of the double nearest to [x]: 53 bits of
    significand, and no exponent below that of the subnormal numbers. *)
Definition cexp (x : Q) : Z := Z.max (flog2 x - 52) (-1074).

Definition roundPos (x : Q) : Q :=
  inject_Z (rne (x / pow2 (cexp x))) * pow2 (cexp x).

(** The double nearest to [x]; also the value of a decimal literal. *)
Definition round (x : Q) : Q :=
  Qred match Qcompare x 0 with
       | Eq => 0
       | Gt => roundPos x
       | Lt => - roundPos (- x)
       end.

(** [x + y] and [x - y] on numbers. *)
Definition add (x y : Q) : Q := round (x + y).
Definition sub (x y : Q) : Q := round (x - y).

Definition isDouble (x : Q) : bool := Qeq_bool (round x) x.

End Num.

(** ** The metric record ([types/base.ts]) *)

Inductive MetricName := CLS | FCP | FID | INP | LCP | TTFB.

Inductive Rating := good | needs_improvement | poor.

Inductive NavigationType :=
  | navigate | reload | back_forward | back_forward_cache | prerender | restore.

(** [E] is the type of the raw timing samples kept for attribution. *)
Record Metric (E : Type) := mkMetric {
  name : MetricName;
  value : Q;
  rating : Rating;
  delta : Q;
  entries : list E;
  id : positive;
  navigationType : NavigationType
}.

Arguments mkMetric {E}.
Arguments name {E}.
Arguments value {E}.
Arguments rating {E}.
Arguments delta {E}.
Arguments entries {E}.
Arguments id {E}.
Arguments navigationType {E}.

Definition set_value {E} (v : Q) (m : Metric E) : Metric E :=
  mkMetric (name m) v (rating m) (delta m) (entries m) (id m) (navigationType m).

Definition set_entries {E} (es : list E) (m : Metric E) : Metric E :=
  mkMetric (name m) (value m) (rating m) (delta m) es (id m) (navigationType m).

(** ** [lib/bindReporter.ts] *)

Module Reporter.

(** [MetricRatingThresholds = [number, number]]. *)
Definition MetricRatingThresholds := (Q * Q)%type.

Definition getRating (v : Q) (thresholds : MetricRatingThresholds) : Rating :=
  if Num.gtb v (snd thresholds) then poor
  else if Num.gtb v (fst thresholds) then needs_improvement
  else good.

(** The closure returned by [bindReporter] owns [prevValue] and [delta] (both
    start [undefined]), shares the record with the metric algorithm, and calls
    the consumer.  [calls] lists the records the consumer received, oldest
    first. *)
Record Bound (E : Type) := mkBound {
  metric : Metric E;
  prevValue : option Q;
  bdelta : option Q;
  calls : list (Metric E)
}.

Arguments mkBound {E}.
Arguments metric {E}.
Arguments prevValue {E}.
Arguments bdelta {E}.
Arguments calls {E}.

(** [bindReporter(callback, metric, thresholds, reportAllChanges)]: a fresh
    closure over [metric]; the consumer's history [log] is carried along. *)
Definition bindReporter {E} (log : list (Metric E)) (m : Metric E) : Bound E :=
  mkBound m None None log.

(** [prevValue || 0]. *)
Definition prevOrZero (p : option Q) : Q :=
  match p with Some v => v | None => 0%Q end.

(** [prevValue === undefined]. *)
Definition isUndefined (p : option Q) : bool :=
  match p with Some _ => false | None => true end.

(** The returned function, [(forceReport?: boolean) => { ... }]. *)
Definition emit {E} (thresholds : MetricRatingThresholds)
    (reportAllChanges : option bool) (forceReport : option bool)
    (b : Bound E) : Bound E :=
  let m := metric b in
  if Num.gtb (value m) 0 then
    if Num.truthy forceReport || Num.truthy reportAllChanges then
      let d := (value m - prevOrZero (prevValue b))%Q in
      if negb (Num.eqb d 0) || isUndefined (prevValue b) then
        let m' := mkMetric (name m) (value m) (getRating (value m) thresholds)
                    d (entries m) (id m) (navigationType m) in
        mkBound m' (Some (value m)) (Some d) (calls b ++ [m'])
      else mkBound m (prevValue b) (Some d) (calls b)
    else b
  else b.

(** The algorithm that owns the record mutates it between emissions. *)
Definition mutate {E} (f : Metric E -> Metric E) (b : Bound E) : Bound E :=
  mkBound (f (metric b)) (prevValue b) (bdelta b) (calls b).

(** What can happen to a bound record: the owner mutates it, or calls the
    returned function. *)
Inductive Op (E : Type) :=
  | Mutate (f : Metric E -> Metric E)
  | Emit (forceReport : option bool).

Arguments Mutate {E}.
Arguments Emit {E}.

Definition step {E} (th : MetricRatingThresholds) (rac : option bool)
    (b : Bound E) (o : Op E) : Bound E :=
  match o with
  | Mutate f => mutate f b
  | Emit force => emit th rac force b
  end.

Definition run {E} (th : MetricRatingThresholds) (rac : option bool)
    (ops : list (Op E)) (b : Bound E) : Bound E :=
  fold_left (step th rac) ops b.

Definition unforced {E} (o : Op E) : bool :=
  match o with
  | Mutate _ => true
  | Emit force => negb (Num.truthy force)
  end.

End Reporter.

(** ** The page environment read by [lib/initMetric.ts] *)

(** The fields of [PerformanceNavigationTiming] the engine reads.  [nav_type]
    is the native navigation type after [replace(/_/g, '-')], [None] when the
    field is empty; [activationStart] is absent on browsers without
    prerendering. *)
Record NavigationEntry := mkNavigationEntry {
  nav_type : option NavigationType;
  activationStart : option Q;
  responseStart : Q
}.

(** What the host page exposes at the time of a call: the result of
    [getNavigationEntry()], the module variable of [lib/bfcache.ts],
    [document.prerendering], [document.wasDiscarded], and the identifier
    [generateUniqueID()] is about to return (time and randomness). *)
Record Env := mkEnv {
  navigationEntry : option NavigationEntry;
  bfcacheRestoreTime : Q;
  prerendering : bool;
  wasDiscarded : bool;
  uniqueID : positive
}.

(** [lib/getActivationStart.ts]: [(navEntry && navEntry.activationStart) || 0]. *)
Definition getActivationStart (env : Env) : Q :=
  match navigationEntry env with
  | Some n => match activationStart n with Some a => a | None => 0 end
  | None => 0
  end.

(** [lib/initMetric.ts]; [v] is the optional initial value. *)
Definition initMetric {E} (nm : MetricName) (v : option Q) (env : Env) : Metric E :=
  let navigationType :=
    if Num.gtb (bfcacheRestoreTime env) 0 then back_forward_cache
    else match navigationEntry env with
         | Some n =>
             if prerendering env || Num.gtb (getActivationStart env) 0 then prerender
             else if wasDiscarded env then restore
             else match nav_type n with Some t => t | None => navigate end
         | None => navigate
         end in
  mkMetric nm (match v with None => (-1)%Q | Some x => x end) good 0 []
           (uniqueID env) navigationType.

(** [lib/bfcache.ts]: for a persisted [pageshow] event the listener records
    [event.timeStamp] and then runs the registered callbacks; any other
    [pageshow] is ignored. *)
Definition pageshow (persisted : bool) (timeStamp : Q) (env : Env) : Env :=
  if persisted then
    mkEnv (navigationEntry env) timeStamp (prerendering env) (wasDiscarded env)
          (uniqueID env)
  else env.

(** ** [onCLS.ts] *)

(** A [layout-shift] performance entry. *)
Record LayoutShift := mkLayoutShift {
  ls_value : Q;
  ls_startTime : Q;
  hadRecentInput : bool
}.

Module OnCLS.

(** [[0.1, 0.25]]: the literal [0.1] is the double nearest to one tenth. *)
Definition CLSThresholds : Reporter.MetricRatingThresholds :=
  (Num.round (1 # 10), 1 # 4)%Q.

(** The variables closed over by the callback given to [onFCP]: [metric] and
    [report] (kept together in [bound]), [sessionValue] and [sessionEntries].
    [metric.entries = sessionEntries] stores a reference to the session array,
    so a later [push] on that array shows in the record too; [shared] says
    that the record's [entries] and [sessionEntries] are one array. *)
Record State := mkState {
  bound : Reporter.Bound LayoutShift;
  sessionValue : Q;
  sessionEntries : list LayoutShift;
  shared : bool
}.

(** [x?.startTime ?? 0]. *)
Definition startTimeOr0 (o : option LayoutShift) : Q :=
  match o with Some e => ls_startTime e | None => 0 end.

(** The test that decides whether [entry] joins the current session. *)
Definition joins (st : State) (entry : LayoutShift) : bool :=
  let firstSessionEntry := head (sessionEntries st) in
  let lastSessionEntry := list.last (sessionEntries st) in
  Num.gtb (sessionValue st) 0
  && Num.ltb (Num.sub (ls_startTime entry) (startTimeOr0 lastSessionEntry)) 1000
  && Num.ltb (Num.sub (ls_startTime entry) (startTimeOr0 firstSessionEntry)) 5000.

(** The body of [entries.forEach] in [handleEntries]. *)
Definition handleEntry (st : State) (entry : LayoutShift) : State :=
  if negb (hadRecentInput entry) then
    if joins st entry then
      let es := sessionEntries st ++ [entry] in
      mkState (if shared st then Reporter.mutate (set_entries es) (bound st)
               else bound st)
              (Num.add (sessionValue st) (ls_value entry)) es (shared st)
    else mkState (bound st) (ls_value entry) [entry] false
  else st.

Definition handleEntries (rac : option bool) (es : list LayoutShift)
    (st : State) : State :=
  let st1 := fold_left handleEntry es st in
  if Num.gtb (sessionValue st1) (value (Reporter.metric (bound st1))) then
    let b := Reporter.mutate
               (fun m => set_entries (sessionEntries st1)
                           (set_value (sessionValue st1) m))
               (bound st1) in
    mkState (Reporter.emit CLSThresholds rac None b)
            (sessionValue st1) (sessionEntries st1) true
  else st1.

(** [report(force)] on the current closure. *)
Definition report (rac : option bool) (force : option bool) (st : State) : State :=
  mkState (Reporter.emit CLSThresholds rac force (bound st))
          (sessionValue st) (sessionEntries st) (shared st).

(** The callback given to [onFCP], run once, on a browser that can observe
    [layout-shift] entries ([po] is defined). *)
Definition activate (env : Env) : State :=
  mkState (Reporter.bindReporter [] (initMetric CLS (Some 0%Q) env)) 0 [] false.

(** What the event loop delivers after activation. *)
Inductive Event :=
  | Timer                                   (* [setTimeout(report, 0)] *)
  | Entries (es : list LayoutShift)         (* the observer's batch *)
  | Hidden (pending : list LayoutShift)     (* [onHidden], with [takeRecords()] *)
  | BFCacheRestore (env : Env)              (* [onBFCacheRestore] *)
  | Frame.                                  (* the [doubleRAF] callback *)

(** The zero-delay timer fires before any [pageshow] can, so the closure it
    captured is still the current one when it runs. *)
Definition step (rac : option bool) (st : State) (ev : Event) : State :=
  match ev with
  | Timer => report rac None st
  | Entries es => handleEntries rac es st
  | Hidden pending => report rac (Some true) (handleEntries rac pending st)
  | BFCacheRestore env =>
      mkState (Reporter.bindReporter (Reporter.calls (bound st))
                 (initMetric CLS (Some 0%Q) env))
              0 (sessionEntries st) false
  | Frame => report rac None st
  end.

Definition run (rac : option bool) (evs : list Event) (st : State) : State :=
  fold_left (step rac) evs st.

(** The record's current value. *)
Definition clsValue (st : State) : Q := value (Reporter.metric (bound st)).

(** The sum of a list of magnitudes, added up in their order with the
    doubles' addition, from [s]. *)
Definition sumFrom (s : Q) (es : list LayoutShift) : Q :=
  fold_left (fun acc e => Num.add acc (ls_value e)) es s.

Definition total (es : list LayoutShift) : Q := sumFrom 0 es.

(** The samples are in the order of their start times, and the difference
    [b.startTime - a.startTime] of two consecutive ones, as the code
    computes it, is less than [1000]. *)
Fixpoint gapsBelow1000 (es : list LayoutShift) : Prop :=
  match es with
  | a :: tl =>
      match tl with
      | b :: _ => (ls_startTime a <= ls_startTime b)%Q
                  /\ (Num.sub (ls_startTime b) (ls_startTime a) < 1000)%Q
      | [] => True
      end /\ gapsBelow1000 tl
  | [] => True
  end.

(** For every sample the difference [e.startTime - first.startTime], as the
    code computes it, is less than [5000]. *)
Definition spanBelow5000 (es : list LayoutShift) : Prop :=
  match es with
  | a :: tl =>
      Forall (fun e => (Num.sub (ls_startTime e) (ls_startTime a) < 5000)%Q) tl
  | [] => True
  end.

(** The observer delivers the samples in batches, one [handleEntries] call
    each. *)
Definition deliver (rac : option bool) (batches : list (list LayoutShift))
    (st : State) : State :=
  fold_left (fun s b => handleEntries rac b s) batches st.

End OnCLS.

(** ** [onTTFB.ts] *)

Module OnTTFB.

Definition TTFBThresholds : Reporter.MetricRatingThresholds := (800, 1800)%Q.

(** [metric] and [report] of [onTTFB]; [listening] says that the
    cache-restoration callback has been registered (it is registered inside
    the readiness callback, and only when a navigation entry exists). *)
Record State := mkState {
  bound : Reporter.Bound NavigationEntry;
  listening : bool
}.

(** The synchronous part of [onTTFB]. *)
Definition start (env : Env) : State :=
  mkState (Reporter.bindReporter [] (initMetric TTFB None env)) false.

(** The callback given to [whenReady]. *)
Definition ready (rac : option bool) (env : Env) (st : State) : State :=
  match navigationEntry env with
  | Some n =>
      let b := Reporter.mutate
                 (fun m => set_entries [n]
                    (set_value (Num.max (responseStart n - getActivationStart env) 0) m))
                 (bound st) in
      mkState (Reporter.emit TTFBThresholds rac (Some true) b) true
  | None => st
  end.

(** The callback given to [onBFCacheRestore]; [env] is the page at the
    [pageshow] event. *)
Definition bfcacheRestore (rac : option bool) (env : Env) (st : State) : State :=
  if listening st then
    mkState (Reporter.emit TTFBThresholds rac (Some true)
               (Reporter.bindReporter (Reporter.calls (bound st))
                  (initMetric TTFB (Some 0%Q) env)))
            true
  else st.

End OnTTFB.

(** ** [lib/interactions.ts] *)

(** The fields of a [PerformanceEventTiming] entry that the aggregator reads;
    [interactionId] is [None] when the property is missing. *)
Record PerformanceEventTiming := mkEventTiming {
  interactionId : option Z;
  entryType : string;
  duration : Q;
  startTime : Q
}.

Module Interactions.

Record Interaction := mkInteraction {
  id : option Z;
  latency : Q;
  entries : list PerformanceEventTiming
}.

(** The module state.  An [Interaction] is a mutable object that the list and
    the map both point to, so the objects live in [heap] and the two
    containers hold references into it.  [prevInteractionCount] is the module
    variable of the same name. *)
Record State := mkState {
  heap : gmap positive Interaction;
  longestInteractionList : list positive;
  longestInteractionMap : gmap (option Z) positive;
  prevInteractionCount : Z
}.

Definition initial : State := mkState ∅ [] ∅ 0.

Definition MAX_INTERACTIONS_TO_CONSIDER : nat := 10.

(** The latency read through a reference (a reference of the list always
    points to an object; [0] stands for the read that cannot happen). *)
Definition latencyOf (h : gmap positive Interaction) (r : positive) : Q :=
  match h !! r with Some i => latency i | None => 0%Q end.

(** [getInteractionCountForNavigation()]; [interactionCount] is what
    [getInteractionCount()] of the polyfill returns at the time of the call. *)
Definition getInteractionCountForNavigation (interactionCount : Z) (st : State) : Z :=
  interactionCount - prevInteractionCount st.

Definition resetInteractions (interactionCount : Z) (st : State) : State :=
  mkState (heap st) [] ∅ interactionCount.

(** [array[i]] for an integer [i]: [undefined] outside the array. *)
Definition arrayGet {A} (l : list A) (i : Z) : option A :=
  if (i <? 0)%Z then None else l !! Z.to_nat i.

(** [Math.min(list.length - 1, Math.floor(count / 50))]. *)
Definition candidateInteractionIndex (interactionCount : Z) (st : State) : Z :=
  Z.min (Z.of_nat (length (longestInteractionList st)) - 1)
        (getInteractionCountForNavigation interactionCount st / 50).

Definition estimateP98LongestInteraction (interactionCount : Z) (st : State)
    : option positive :=
  arrayGet (longestInteractionList st) (candidateInteractionIndex interactionCount st).

(** [Array.prototype.sort((a, b) => b.latency - a.latency)]: the stable sort
    by descending latency.  An element moves behind its right neighbour only
    when the comparator is positive, that is when its latency is smaller. *)
Fixpoint insertDesc (h : gmap positive Interaction) (r : positive)
    (l : list positive) : list positive :=
  match l with
  | [] => [r]
  | x :: tl =>
      if Num.ltb (latencyOf h r) (latencyOf h x) then x :: insertDesc h r tl
      else r :: x :: tl
  end.

Definition sortDesc (h : gmap positive Interaction) (l : list positive)
    : list positive :=
  fold_right (insertDesc h) [] l.

(** [entry.interactionId] as a condition: [undefined] and [0] are falsy. *)
Definition truthyId (i : option Z) : bool :=
  match i with Some z => negb (z =? 0)%Z | None => false end.

(** [entry.startTime === existingInteraction.entries[0]?.startTime]. *)
Definition sameStart (entry : PerformanceEventTiming)
    (first : option PerformanceEventTiming) : bool :=
  match first with
  | Some e => Num.eqb (startTime entry) (startTime e)
  | None => false
  end.

(** [minLongestInteraction?.latency ?? 0]. *)
Definition minLongestLatency (st : State) : Q :=
  match list.last (longestInteractionList st) with
  | Some r => latencyOf (heap st) r
  | None => 0%Q
  end.

(** Step 6: update the interaction the entry belongs to, or create one. *)
Definition mergeOrCreate (entry : PerformanceEventTiming) (st : State) : State :=
  match longestInteractionMap st !! interactionId entry with
  | Some r =>
      match heap st !! r with
      | Some existingInteraction =>
          if Num.gtb (duration entry) (latency existingInteraction) then
            mkState (<[r := mkInteraction (id existingInteraction) (duration entry)
                             [entry]]> (heap st))
                    (longestInteractionList st) (longestInteractionMap st)
                    (prevInteractionCount st)
          else if Num.eqb (duration entry) (latency existingInteraction)
                  && sameStart entry (list.head (entries existingInteraction)) then
            mkState (<[r := mkInteraction (id existingInteraction)
                             (latency existingInteraction)
                             (entries existingInteraction ++ [entry])]> (heap st))
                    (longestInteractionList st) (longestInteractionMap st)
                    (prevInteractionCount st)
          else st
      | None => st
      end
  | None =>
      let r := fresh (dom (heap st)) in
      let interaction := mkInteraction (interactionId entry) (duration entry) [entry] in
      mkState (<[r := interaction]> (heap st))
              (longestInteractionList st ++ [r])
              (<[id interaction := r]> (longestInteractionMap st))
              (prevInteractionCount st)
  end.

(** Step 7.1. *)
Definition sortList (st : State) : State :=
  mkState (heap st) (sortDesc (heap st) (longestInteractionList st))
          (longestInteractionMap st) (prevInteractionCount st).

(** [i => longestInteractionMap.delete(i.id)] for the object behind [r]. *)
Definition evict (h : gmap positive Interaction) (m : gmap (option Z) positive)
    (r : positive) : gmap (option Z) positive :=
  match h !! r with Some i => delete (id i) m | None => m end.

(** Step 7.2: [splice(MAX_INTERACTIONS_TO_CONSIDER)] and the deletions. *)
Definition truncate (st : State) : State :=
  if (MAX_INTERACTIONS_TO_CONSIDER <? length (longestInteractionList st))%nat then
    mkState (heap st)
            (take MAX_INTERACTIONS_TO_CONSIDER (longestInteractionList st))
            (fold_left (evict (heap st))
               (drop MAX_INTERACTIONS_TO_CONSIDER (longestInteractionList st))
               (longestInteractionMap st))
            (prevInteractionCount st)
  else st.

(** [entryPreProcessingCallbacks] is empty in this repository (nothing
    registers a hook), so the first statement of the function does nothing. *)
Definition processInteractionEntry (entry : PerformanceEventTiming) (st : State)
    : State :=
  if negb (truthyId (interactionId entry)
           || String.eqb (entryType entry) "first-input") then st
  else
    let existingInteraction := longestInteractionMap st !! interactionId entry in
    if bool_decide (is_Some existingInteraction)
       || (length (longestInteractionList st) <? MAX_INTERACTIONS_TO_CONSIDER)%nat
       || Num.gtb (duration entry) (minLongestLatency st)
    then truncate (sortList (mergeOrCreate entry st))
    else st.

(** The calls the INP algorithm makes into the module. *)
Inductive Call :=
  | Process (entry : PerformanceEventTiming)
  | Reset (interactionCount : Z).

Definition call (st : State) (c : Call) : State :=
  match c with
  | Process entry => processInteractionEntry entry st
  | Reset n => resetInteractions n st
  end.

Definition run (cs : list Call) (st : State) : State := fold_left call cs st.

(** The latencies of the retained interactions, in list order. *)
Definition latencies (st : State) : list Q :=
  map (latencyOf (heap st)) (longestInteractionList st).

(** [a] may stand before [b] in a list sorted by descending latency. *)
Definition before (h : gmap positive Interaction) (a b : positive) : Prop :=
  (latencyOf h b <= latencyOf h a)%Q.

(** A list of latencies in descending order. *)
Definition descending (l : list Q) : Prop :=
  StronglySorted (fun x y => (y <= x)%Q) l.

(** At most ten interactions, the longest first. *)
Definition bounded (st : State) : Prop :=
  length (longestInteractionList st) <= MAX_INTERACTIONS_TO_CONSIDER
  /\ descending (latencies st).

(** The [id] behind a reference. *)
Definition idOf (h : gmap positive Interaction) (r : positive) : option Z :=
  match h !! r with Some i => id i | None => None end.

(** The map and the list describe the same interactions: the list has no
    repeated reference, every listed interaction is filed in the map under its
    own [id], pointing to that very object, and the map has no other entry. *)
Definition synced (st : State) : Prop :=
  NoDup (longestInteractionList st)
  /\ (forall r, r ∈ longestInteractionList st ->
        exists i, heap st !! r = Some i /\ longestInteractionMap st !! id i = Some r)
  /\ (forall k r, longestInteractionMap st !! k = Some r ->
        r ∈ longestInteractionList st /\ exists i, heap st !! r = Some i /\ id i = k).

End Interactions.

(** ** Concrete pages and samples *)

Module Sample.

(** A page loaded by a plain navigation, never restored from the cache
    ([bfcacheRestoreTime] still holds its initial [-1]). *)
Definition page : Env :=
  mkEnv (Some (mkNavigationEntry (Some navigate) None 120)) (-1) false false 1.

(** The same page at a [pageshow] restoration at [timeStamp = 200]. *)
Definition restored : Env :=
  pageshow true 200 (mkEnv (navigationEntry page) (-1) false false 2).

Definition shift (v t : Q) : LayoutShift := mkLayoutShift v t false.

End Sample.

Module Trace.

Definition click (i : Z) (d t : Q) : PerformanceEventTiming :=
  mkEventTiming (Some i) "event" d t.

(** Three interactions of 80, 200 and 120 ms. *)
Definition three : Interactions.State :=
  Interactions.run
    [Interactions.Process (click 7 80 10);
     Interactions.Process (click 14 200 30);
     Interactions.Process (click 21 120 50)]
    Interactions.initial.

(** Twelve interactions of 10, 20, ..., 120 ms, then a longer sample of the
    interaction with id 5. *)
Definition twelve : Interactions.State :=
  Interactions.run
    (map (fun n => Interactions.Process
                     (click (Z.of_nat n) (inject_Z (10 * Z.of_nat n)) 0))
         (seq 1 12)
     ++ [Interactions.Process (click 5 300 0)])
    Interactions.initial.

End Trace.

(** ** Sums over what the consumer received *)



(** ** [lib/getNavigationEntry.ts] *)

(** [raw] is [performance.getEntriesByType('navigation')[0]] ([None] when the
    API or the entry is missing) and [now] is [performance.now()]: the entry
    counts only once its response has started, at a time that has passed. *)
Definition getNavigationEntry (raw : option NavigationEntry) (now : Q)
    : option NavigationEntry :=
  match raw with
  | Some n =>
      if Num.gtb (responseStart n) 0 && Num.ltb (responseStart n) now
      then Some n else None
  | None => None
  end.

(** The page as the metric code sees it at time [now]. *)
Definition pageAt (raw : option NavigationEntry) (now restoreTime : Q)
    (prerender discarded : bool) (uid : positive) : Env :=
  mkEnv (getNavigationEntry raw now) restoreTime prerender discarded uid.

(** ** [onTTFB.ts]: the whole life of one [onTTFB] call *)

(** Readiness, then any number of cache restorations, each with the page as
    it is at that [pageshow]. *)
Definition ttfbLife (rac : option bool) (env : Env) (restores : list Env)
    : OnTTFB.State :=
  fold_left (fun st e => OnTTFB.bfcacheRestore rac e st) restores
            (OnTTFB.ready rac env (OnTTFB.start env)).

(** ** [onCLS.ts]: states the event loop can reach *)

(** The closure remembers a value only if the consumer's latest record
    carries it. *)
Definition remembered {E} (b : Reporter.Bound E) : Prop :=
  match Reporter.prevValue b with
  | Some p => exists l m, Reporter.calls b = l ++ [m] /\ value m = p
  | None => True
  end.

(** What holds between two events of [onCLS]: the open session is not worth
    more than the record, and the closure's memory matches the log. *)
Definition clsSettled (st : OnCLS.State) : Prop :=
  (OnCLS.sessionValue st <= OnCLS.clsValue st)%Q /\ remembered (OnCLS.bound st).

(** The largest of a list of numbers, from a starting value. *)
Definition maxFrom (x : Q) (l : list Q) : Q := fold_left Num.max l x.

(** ** [lib/interactions.ts]: what an epoch has seen *)

Module Epoch.

Import Interactions.

(** The filter at the top of [processInteractionEntry]. *)
Definition qualifies (entry : PerformanceEventTiming) : bool :=
  truthyId (interactionId entry) || String.eqb (entryType entry) "first-input".

(** The test of step 5, for an entry that passed the filter. *)
Definition admitted (entry : PerformanceEventTiming) (st : State) : bool :=
  bool_decide (is_Some (longestInteractionMap st !! interactionId entry))
  || (length (longestInteractionList st) <? MAX_INTERACTIONS_TO_CONSIDER)%nat
  || Num.gtb (duration entry) (minLongestLatency st).

(** The longest duration among the entries that pass the filter: one more
    entry, and a whole list. *)
Definition seen (acc : option Q) (e : PerformanceEventTiming) : option Q :=
  if qualifies e then
    Some (match acc with Some a => Num.max a (duration e) | None => duration e end)
  else acc.

Definition longestDuration (es : list PerformanceEventTiming) : option Q :=
  fold_left seen es None.

(** The latency of the first interaction of the list. *)
Definition longestLatency (st : State) : option Q :=
  latencyOf (heap st) <$> list.head (longestInteractionList st).

(** The state a navigation epoch starts from: any history, then a reset. *)
Definition started (history : list Call) (interactionCount : Z) : State :=
  resetInteractions interactionCount (run history initial).

(** [m] is the largest latency among the interactions [l] points to. *)
Definition isLongest (h : gmap positive Interaction) (m : Q) (l : list positive)
    : Prop :=
  Forall (fun r => (latencyOf h r <= m)%Q) l
  /\ Exists (fun r => (latencyOf h r == m)%Q) l.

(** What ties an epoch's state to the durations it has seen. *)
Definition tracks (st : State) (acc : option Q) : Prop :=
  synced st
  /\ StronglySorted (before (heap st)) (longestInteractionList st)
  /\ match acc with
     | None => longestInteractionList st = []
     | Some a => isLongest (heap st) a (longestInteractionList st)
     end.

End Epoch.

(** ** [onINP.ts] *)

Module OnINP.

Import Interactions.

Definition INPThresholds : Reporter.MetricRatingThresholds := (200, 500)%Q.

(** [metric] and [report] of [onINP], and the module state of
    [lib/interactions.ts] it feeds.  [metric.entries = inp.entries] makes the
    record point to an array owned by the interaction; the record's entries
    are left out here ([unit] samples), and nothing below reads them. *)
Record State := mkState {
  bound : Reporter.Bound unit;
  interactions : Interactions.State
}.

(** The callback [handleEntries] gives to [whenIdle]; [interactionCount] is
    what [getInteractionCount()] returns when it runs. *)
Definition idleBatch (rac : option bool) (batch : list PerformanceEventTiming)
    (interactionCount : Z) (st : State) : State :=
  let ints := fold_left (fun s e => processInteractionEntry e s) batch
                        (interactions st) in
  match estimateP98LongestInteraction interactionCount ints with
  | Some r =>
      match heap ints !! r with
      | Some inp =>
          if negb (Num.eqb (latency inp) (value (Reporter.metric (bound st)))) then
            mkState (Reporter.emit INPThresholds rac None
                       (Reporter.mutate (set_value (latency inp)) (bound st)))
                    ints
          else mkState (bound st) ints
      | None => mkState (bound st) ints
      end
  | None => mkState (bound st) ints
  end.

(** The callback given to [onBFCacheRestore]. *)
Definition bfcacheRestore (env : Env) (interactionCount : Z) (st : State) : State :=
  mkState (Reporter.bindReporter (Reporter.calls (bound st)) (initMetric INP None env))
          (resetInteractions interactionCount (interactions st)).

(** The batches of one epoch, each with the count read when it runs. *)
Definition idleBatches (rac : option bool)
    (batches : list (list PerformanceEventTiming * Z)) (st : State) : State :=
  fold_left (fun s b => idleBatch rac (fst b) (snd b) s) batches st.

End OnINP.

(** ** [lib/getVisibilityWatcher.ts] *)

(** A JavaScript number that may be [Infinity]. *)
Inductive Time := Finite (t : Q) | Infinity.

Module Visibility.

(** [x < t] and [t > x] for a number [x]. *)
Definition before (x : Q) (t : Time) : bool :=
  match t with Finite y => Num.ltb x y | Infinity => true end.

Definition above (t : Time) (x : Q) : bool :=
  match t with Finite y => Num.gtb y x | Infinity => true end.

Definition below (t : Time) (x : Q) : bool :=
  match t with Finite y => Num.ltb y x | Infinity => false end.

(** What the watcher reads of the document. *)
Record Document := mkDocument {
  hidden : bool;          (* [document.visibilityState === 'hidden'] *)
  prerendering : bool     (* [document.prerendering] *)
}.

(** The module variable [firstHiddenTime], whether the two change listeners
    are registered, and whether the cache-restoration callback is. *)
Record State := mkState {
  firstHiddenTime : Time;
  listening : bool;
  restoring : bool
}.

Definition initial : State := mkState (Finite (-1)) false false.

Definition initHiddenTime (d : Document) : Time :=
  if hidden d && negb (prerendering d) then Finite 0 else Infinity.

Inductive EventType := visibilitychange | prerenderingchange.

(** The listener; it removes itself (both registrations) when it fires. *)
Definition onVisibilityUpdate (d : Document) (type : EventType) (timeStamp : Q)
    (st : State) : State :=
  if hidden d && above (firstHiddenTime st) (-1) then
    mkState (match type with
             | visibilitychange => Finite timeStamp
             | prerenderingchange => Finite 0
             end)
            false (restoring st)
  else st.

(** The first call initialises the variable and registers the listeners and
    the restoration callback; every call returns the getter. *)
Definition getVisibilityWatcher (d : Document) (st : State) : State :=
  if below (firstHiddenTime st) 0 then mkState (initHiddenTime d) true true
  else st.

(** What can happen to the watcher. *)
Inductive Event :=
  | Change (d : Document) (type : EventType) (timeStamp : Q)
  | RestoreTimer (d : Document)     (* the timer set at a cache restoration *)
  | Watch (d : Document).           (* another [getVisibilityWatcher()] call *)

Definition step (st : State) (ev : Event) : State :=
  match ev with
  | Change d type timeStamp =>
      if listening st then onVisibilityUpdate d type timeStamp st else st
  | RestoreTimer d =>
      if restoring st then mkState (initHiddenTime d) true (restoring st) else st
  | Watch d => getVisibilityWatcher d st
  end.

Definition run (evs : list Event) (st : State) : State := fold_left step evs st.

(** Events carry time stamps that are not negative. *)
Definition stamped (ev : Event) : Prop :=
  match ev with
  | Change _ _ timeStamp => (0 <= timeStamp)%Q
  | _ => True
  end.

(** Every event but the timer of a cache restoration. *)
Definition sameEpoch (ev : Event) : bool :=
  match ev with Change _ _ _ => true | Watch _ => true | RestoreTimer _ => false end.

(** The variable has been initialised: it is [Infinity] or not negative. *)
Definition initialised (st : State) : Prop :=
  match firstHiddenTime st with Finite t => (0 <= t)%Q | Infinity => True end.

End Visibility.

(** ** [onFCP.ts] *)

(** A [paint] performance entry. *)
Record PaintEntry := mkPaintEntry {
  paint_name : string;
  paint_startTime : Q
}.

Module OnFCP.

Definition FCPThresholds : Reporter.MetricRatingThresholds := (1800, 3000)%Q.

(** [metric] and [report] of the [whenActivated] callback, and whether the
    observer [po] is still connected. *)
Record State := mkState {
  bound : Reporter.Bound PaintEntry;
  connected : bool
}.

(** The callback of [whenActivated], on a browser that can observe [paint]
    entries. *)
Definition activate (env : Env) : State :=
  mkState (Reporter.bindReporter [] (initMetric FCP None env)) true.

(** The body of [entries.forEach] in [handleEntries]; [firstHiddenTime] is
    what the watcher's getter returns during the call. *)
Definition handleEntry (rac : option bool) (firstHiddenTime : Time) (env : Env)
    (st : State) (entry : PaintEntry) : State :=
  if String.eqb (paint_name entry) "first-contentful-paint" then
    if Visibility.before (paint_startTime entry) firstHiddenTime then
      let b := Reporter.mutate
                 (fun m => set_entries (entries m ++ [entry])
                    (set_value (Num.max (paint_startTime entry - getActivationStart env) 0)
                       m))
                 (bound st) in
      mkState (Reporter.emit FCPThresholds rac (Some true) b) false
    else mkState (bound st) false
  else st.

Definition handleEntries (rac : option bool) (firstHiddenTime : Time) (env : Env)
    (es : list PaintEntry) (st : State) : State :=
  fold_left (handleEntry rac firstHiddenTime env) es st.

(** A delivery of the observer: nothing arrives once it is disconnected. *)
Definition deliver (rac : option bool) (env : Env) (st : State)
    (batch : Time * list PaintEntry) : State :=
  if connected st then handleEntries rac (fst batch) env (snd batch) st else st.

(** The callback given to [onBFCacheRestore], and the [doubleRAF] callback it
    schedules, which keeps the event's [timeStamp] and reads
    [performance.now()] when it runs. *)
Definition bfcacheRestore (env : Env) (st : State) : State :=
  mkState (Reporter.bindReporter (Reporter.calls (bound st)) (initMetric FCP None env))
          (connected st).

Definition restoreFrame (rac : option bool) (now timeStamp : Q) (st : State) : State :=
  mkState (Reporter.emit FCPThresholds rac (Some true)
             (Reporter.mutate (set_value (now - timeStamp)) (bound st)))
          (connected st).

(** The number of entries of a batch that are named as the first contentful
    paint. *)
Definition countFCP (es : list PaintEntry) : nat :=
  length (filter (fun e => paint_name e = "first-contentful-paint") es).

End OnFCP.

(** ** [onLCP.ts] *)

(** A [largest-contentful-paint] entry. *)
Record LargestContentfulPaint := mkLCP {
  lcp_startTime : Q
}.

Module OnLCP.

Definition LCPThresholds : Reporter.MetricRatingThresholds := (2500, 4000)%Q.

(** [metric] and [report], whether [po] is connected, and the module table
    [reportedMetricIDs]. *)
Record State := mkState {
  bound : Reporter.Bound LargestContentfulPaint;
  connected : bool;
  reportedMetricIDs : gset positive
}.

Definition activate (env : Env) (reported : gset positive) : State :=
  mkState (Reporter.bindReporter [] (initMetric LCP None env)) true reported.

(** [entries.slice(-1)]. *)
Definition lastOnly {A} (l : list A) : list A :=
  match list.last l with Some x => [x] | None => [] end.

Definition handleEntry (rac : option bool) (firstHiddenTime : Time) (env : Env)
    (st : State) (entry : LargestContentfulPaint) : State :=
  if Visibility.before (lcp_startTime entry) firstHiddenTime then
    let b := Reporter.mutate
               (fun m => set_entries [entry]
                  (set_value (Num.max (lcp_startTime entry - getActivationStart env) 0)
                     m))
               (bound st) in
    mkState (Reporter.emit LCPThresholds rac None b) (connected st)
            (reportedMetricIDs st)
  else st.

Definition handleEntries (rac : option bool) (firstHiddenTime : Time) (env : Env)
    (es : list LargestContentfulPaint) (st : State) : State :=
  fold_left (handleEntry rac firstHiddenTime env)
            (if Num.truthy rac then es else lastOnly es) st.

(** The function wrapped in [runOnce] to make [stopListening]; [pending] is
    what [po.takeRecords()] returns. *)
Definition stopListening (rac : option bool) (firstHiddenTime : Time) (env : Env)
    (pending : list LargestContentfulPaint) (st : State) : State :=
  if bool_decide (id (Reporter.metric (bound st)) ∈ reportedMetricIDs st) then st
  else
    let st1 := handleEntries rac firstHiddenTime env pending st in
    mkState (Reporter.emit LCPThresholds rac (Some true) (bound st1)) false
            ({[ id (Reporter.metric (bound st1)) ]} ∪ reportedMetricIDs st1).

(** The callback given to [onBFCacheRestore] and its [doubleRAF] callback. *)
Definition bfcacheRestore (env : Env) (st : State) : State :=
  mkState (Reporter.bindReporter (Reporter.calls (bound st)) (initMetric LCP None env))
          (connected st) (reportedMetricIDs st).

Definition restoreFrame (rac : option bool) (now timeStamp : Q) (st : State) : State :=
  mkState (Reporter.emit LCPThresholds rac (Some true)
             (Reporter.mutate (set_value (now - timeStamp)) (bound st)))
          (connected st)
          ({[ id (Reporter.metric (bound st)) ]} ∪ reportedMetricIDs st).

End OnLCP.

(** ** [lib/getLoadState.ts] *)

Inductive LoadState := loading | dom_interactive | dom_content_loaded | complete.

(** The milestones of the navigation entry that [getLoadState] reads. *)
Record LoadTimings := mkLoadTimings {
  domInteractive : Q;
  domContentLoadedEventStart : Q;
  domComplete : Q
}.

(** [readyStateLoading] is [document.readyState === 'loading'] and
    [navigationEntry] the result of [getNavigationEntry()]. *)
Definition getLoadState (readyStateLoading : bool)
    (navigationEntry : option LoadTimings) (timestamp : Q) : LoadState :=
  if readyStateLoading then loading
  else
    match navigationEntry with
    | Some n =>
        if Num.ltb timestamp (domInteractive n) then loading
        else if Num.eqb (domContentLoadedEventStart n) 0
                || Num.ltb (domContentLoadedEventStart n) timestamp
             then dom_interactive
        else if Num.eqb (domComplete n) 0 || Num.gtb timestamp (domComplete n)
             then dom_content_loaded
        else complete
    | None => complete
    end.

(** ** [onLoad] of [metrics/index.ts] *)

(** The fields of the navigation entry that [onLoad] reads. *)
Record LoadEntry := mkLoadEntry {
  loadEventEnd : Q;
  connectStart : Q
}.

(** [navigationEntries] is [performance.getEntriesByType('navigation')] and
    [now] is [performance.now()]; the result is the one object the callback
    is invoked with, as its name and value.  (With a non-empty list the first
    entry is defined, so the [10] of [entry ? ... : 10] is never taken.) *)
Definition onLoad (navigationEntries : list LoadEntry) (now : Q) : string * Q :=
  match navigationEntries with
  | entry :: _ =>
      let loadTime := (loadEventEnd entry - connectStart entry)%Q in
      ("LOAD", if Qle_bool loadTime 0 then now else loadTime)
  | [] => ("LOAD", now)
  end.

(** ** [lib/generateUniqueID.ts] *)

(** The number after the second dash of the identifier,
    [Math.floor(Math.random() * (9e12 - 1)) + 1e12], for the value [random]
    that [Math.random()] returned. *)
Definition uniqueSuffix (random : Q) : Z :=
  (Qfloor (random * inject_Z (9000000000000 - 1)) + 1000000000000)%Z.

(** * Properties *)

(** ** Comparisons *)

Module NumFacts.

Import Num.

Lemma gtb_true x y : gtb x y = true <-> (y < x)%Q.
Proof.
  unfold gtb. rewrite negb_true_iff. split; intros H.
  - apply Qnot_le_lt. intros Hle. apply Qle_bool_iff in Hle. congruence.
  - destruct (Qle_bool x y) eqn:E; [|reflexivity].
    apply Qle_bool_iff in E. exfalso. apply (Qlt_not_le _ _ H E).
Qed.

Lemma gtb_false x y : gtb x y = false <-> (x <= y)%Q.
Proof.
  unfold gtb. rewrite negb_false_iff. apply Qle_bool_iff.
Qed.

Lemma ltb_true x y : ltb x y = true <-> (x < y)%Q.
Proof. unfold ltb. apply (gtb_true y x). Qed.

Lemma ltb_false x y : ltb x y = false <-> (y <= x)%Q.
Proof. unfold ltb. apply (gtb_false y x). Qed.

Lemma eqb_true x y : eqb x y = true <-> (x == y)%Q.
Proof. apply Qeq_bool_iff. Qed.

End NumFacts.

(** ** Facts on the rounding to doubles *)

Module RoundFacts.

Import Num.
Local Open Scope Q_scope.

Lemma pow2_pos e : 0 < pow2 e.
Proof. apply Qpower_0_lt. reflexivity. Qed.

Lemma pow2_plus a b : pow2 (a + b) == pow2 a * pow2 b.
Proof. apply Qpower_plus. discriminate. Qed.

Lemma pow2_succ a : pow2 (a + 1) == 2 * pow2 a.
Proof. rewrite pow2_plus. unfold pow2 at 2. rewrite Qpower_1_r. ring. Qed.

Lemma pow2_le a b : (a <= b)%Z -> pow2 a <= pow2 b.
Proof. intros H. apply Qpower_le_compat_l; [exact H|discriminate]. Qed.

Lemma pow2_lt a b : (a < b)%Z -> pow2 a < pow2 b.
Proof. intros H. apply Qpower_lt_compat_l; [exact H|reflexivity]. Qed.

Lemma pow2_lt_inv a b : pow2 a < pow2 b -> (a < b)%Z.
Proof. intros H. apply (Qpower_lt_compat_l_inv 2); [exact H|reflexivity]. Qed.

Lemma pow2_Z e : (0 <= e)%Z -> pow2 e == inject_Z (2 ^ e).
Proof. intros H. unfold pow2. rewrite Zpower_Qpower by exact H. reflexivity. Qed.

Lemma flog2_spec x : 0 < x -> pow2 (flog2 x) <= x /\ x < pow2 (flog2 x + 1).
Proof.
  intros Hx. destruct x as [n d].
  assert (Hn : (0 < n)%Z).
  { unfold Qlt in Hx. simpl in Hx. lia. }
  unfold flog2. cbn [Qnum Qden].
  set (a := Z.log2 n). set (b := Z.log2 (Z.pos d)).
  assert (Ha : (0 <= a)%Z) by apply Z.log2_nonneg.
  assert (Hb : (0 <= b)%Z) by apply Z.log2_nonneg.
  destruct (Z.log2_spec n Hn) as [Ha1 Ha2]. fold a in Ha1, Ha2.
  destruct (Z.log2_spec (Z.pos d) eq_refl) as [Hb1 Hb2]. fold b in Hb1, Hb2.
  set (N := inject_Z n). set (D := inject_Z (Z.pos d)).
  assert (Hx' : (n # d) * D == N).
  { unfold N, D, Qeq, inject_Z. simpl. lia. }
  assert (HD : 0 < D) by (unfold D, Qlt; simpl; lia).
  assert (HA1 : pow2 a <= N).
  { rewrite pow2_Z by exact Ha. unfold N. rewrite <- Zle_Qle. exact Ha1. }
  assert (HA2 : N < 2 * pow2 a).
  { rewrite <- pow2_succ, pow2_Z by lia. unfold N. rewrite <- Zlt_Qlt.
    exact Ha2. }
  assert (HB1 : pow2 b <= D).
  { rewrite pow2_Z by exact Hb. unfold D. rewrite <- Zle_Qle. exact Hb1. }
  assert (HB2 : D < 2 * pow2 b).
  { rewrite <- pow2_succ, pow2_Z by lia. unfold D. rewrite <- Zlt_Qlt.
    exact Hb2. }
  assert (HE : pow2 (a - b) * pow2 b == pow2 a).
  { rewrite <- pow2_plus. replace (a - b + b)%Z with a by lia. reflexivity. }
  assert (HEp := pow2_pos (a - b)). assert (HBp := pow2_pos b).
  destruct (Qle_bool (pow2 (a - b)) (n # d)) eqn:C.
  - apply Qle_bool_iff in C. split; [exact C|].
    rewrite pow2_succ.
    generalize dependent (pow2 (a - b)). generalize dependent (pow2 b).
    generalize dependent (pow2 a). generalize dependent (n # d).
    intros. nra.
  - assert (C' : n # d < pow2 (a - b)).
    { apply Qnot_le_lt. intros H. apply Qle_bool_iff in H. congruence. }
    replace (a - b - 1 + 1)%Z with (a - b)%Z by lia.
    split; [|exact C'].
    assert (H2 : pow2 (a - b) == 2 * pow2 (a - b - 1)).
    { rewrite <- pow2_succ. replace (a - b - 1 + 1)%Z with (a - b)%Z by lia.
      reflexivity. }
    assert (Hp := pow2_pos (a - b - 1)).
    generalize dependent (pow2 (a - b - 1)).
    generalize dependent (pow2 (a - b)). generalize dependent (pow2 b).
    generalize dependent (pow2 a). generalize dependent (n # d).
    intros. nra.
Qed.


Lemma flog2_unique x e :
  0 < x -> pow2 e <= x -> x < pow2 (e + 1) -> flog2 x = e.
Proof.
  intros Hx H1 H2. destruct (flog2_spec x Hx) as [S1 S2].
  assert (A : (flog2 x < e + 1)%Z).
  { apply pow2_lt_inv. eapply Qle_lt_trans; eassumption. }
  assert (B : (e < flog2 x + 1)%Z).
  { apply pow2_lt_inv. eapply Qle_lt_trans; eassumption. }
  lia.
Qed.

Lemma flog2_mono x y : 0 < x -> x <= y -> (flog2 x <= flog2 y)%Z.
Proof.
  intros Hx Hxy.
  assert (Hy : 0 < y) by lra.
  destruct (flog2_spec x Hx) as [S1 _]. destruct (flog2_spec y Hy) as [_ S2].
  assert (A : (flog2 x < flog2 y + 1)%Z).
  { apply pow2_lt_inv. lra. }
  lia.
Qed.

Lemma flog2_comp x y : 0 < x -> x == y -> flog2 x = flog2 y.
Proof.
  intros Hx E. assert (Hy : 0 < y) by lra.
  destruct (flog2_spec y Hy) as [S1 S2].
  apply flog2_unique; lra.
Qed.

(** Rounding to the nearest integer. *)

Lemma rne_cases m :
  let f := Qfloor m in
  (m - inject_Z f < 1 # 2 /\ rne m = f)
  \/ (1 # 2 < m - inject_Z f /\ rne m = (f + 1)%Z)
  \/ (m - inject_Z f == 1 # 2 /\ (rne m = f \/ rne m = (f + 1)%Z)).
Proof.
  intros f. unfold rne. fold f.
  destruct (Qcompare_spec (m - inject_Z f) (1 # 2)) as [E|L|G].
  - right. right. split; [exact E|]. destruct (Z.even f); auto.
  - left. auto.
  - right. left. auto.
Qed.

Lemma rne_comp m m' : m == m' -> rne m = rne m'.
Proof.
  intros E. unfold rne. rewrite (Qfloor_comp _ _ E).
  assert (E' : m - inject_Z (Qfloor m') == m' - inject_Z (Qfloor m'))
    by (rewrite E; reflexivity).
  rewrite (Qcompare_comp _ _ E' (1 # 2) (1 # 2) (Qeq_refl _)). reflexivity.
Qed.

Lemma rne_Z n : rne (inject_Z n) = n.
Proof.
  destruct (rne_cases (inject_Z n)) as [[_ H]|[[H _]|[H _]]];
    rewrite Qfloor_Z in *; [exact H| |]; exfalso; lra.
Qed.

Lemma rne_mono m m' : m <= m' -> (rne m <= rne m')%Z.
Proof.
  intros H.
  assert (Hf : (Qfloor m <= Qfloor m')%Z) by (apply Qfloor_resp_le; exact H).
  destruct (Z.eq_dec (Qfloor m) (Qfloor m')) as [E|NE].
  - unfold rne. rewrite E.
    destruct (Qcompare_spec (m - inject_Z (Qfloor m')) (1 # 2)) as [A|A|A];
    destruct (Qcompare_spec (m' - inject_Z (Qfloor m')) (1 # 2)) as [B|B|B];
    try lia; try (exfalso; lra);
    destruct (Z.even (Qfloor m')); lia.
  - assert (A : (rne m <= Qfloor m + 1)%Z).
    { destruct (rne_cases m) as [[_ ->]|[[_ ->]|[_ [-> | ->]]]]; lia. }
    assert (B : (Qfloor m' <= rne m')%Z).
    { destruct (rne_cases m') as [[_ ->]|[[_ ->]|[_ [-> | ->]]]]; lia. }
    lia.
Qed.

Lemma rne_le_Z m n : m <= inject_Z n -> (rne m <= n)%Z.
Proof. intros H. rewrite <- (rne_Z n). apply rne_mono, H. Qed.

Lemma rne_ge_Z m n : inject_Z n <= m -> (n <= rne m)%Z.
Proof. intros H. rewrite <- (rne_Z n). apply rne_mono, H. Qed.


(** The rounding of a positive number. *)

Lemma cexp_min x : (-1074 <= cexp x)%Z.
Proof. unfold cexp. lia. Qed.

Lemma cexp_mono x y : 0 < x -> x <= y -> (cexp x <= cexp y)%Z.
Proof. intros Hx H. assert (A := flog2_mono x y Hx H). unfold cexp. lia. Qed.

Lemma mantissa_lt x : 0 < x -> x / pow2 (cexp x) < inject_Z (2 ^ 53).
Proof.
  intros Hx. apply Qlt_shift_div_r; [apply pow2_pos|].
  rewrite <- (pow2_Z 53), <- pow2_plus by lia.
  destruct (flog2_spec x Hx) as [_ S2].
  eapply Qlt_le_trans; [exact S2|]. apply pow2_le. unfold cexp. lia.
Qed.

Lemma mantissa_ge x :
  0 < x -> (-1074 < cexp x)%Z -> inject_Z (2 ^ 52) <= x / pow2 (cexp x).
Proof.
  intros Hx He. apply Qle_shift_div_l; [apply pow2_pos|].
  rewrite <- (pow2_Z 52), <- pow2_plus by lia.
  destruct (flog2_spec x Hx) as [S1 _].
  eapply Qle_trans; [|exact S1]. apply pow2_le. unfold cexp in *. lia.
Qed.

Lemma roundPos_le x : 0 < x -> roundPos x <= pow2 (cexp x + 53).
Proof.
  intros Hx. unfold roundPos.
  assert (A : (rne (x / pow2 (cexp x)) <= 2 ^ 53)%Z).
  { apply rne_le_Z. apply Qlt_le_weak, mantissa_lt, Hx. }
  rewrite Z.add_comm, pow2_plus, (pow2_Z 53) by lia.
  apply Qmult_le_compat_r; [|apply Qlt_le_weak, pow2_pos].
  rewrite <- Zle_Qle. exact A.
Qed.

Lemma roundPos_ge x :
  0 < x -> (-1074 < cexp x)%Z -> pow2 (cexp x + 52) <= roundPos x.
Proof.
  intros Hx He. unfold roundPos.
  assert (A : (2 ^ 52 <= rne (x / pow2 (cexp x)))%Z).
  { apply rne_ge_Z. apply mantissa_ge; assumption. }
  rewrite Z.add_comm, pow2_plus, (pow2_Z 52) by lia.
  apply Qmult_le_compat_r; [|apply Qlt_le_weak, pow2_pos].
  rewrite <- Zle_Qle. exact A.
Qed.

Lemma roundPos_nonneg x : 0 < x -> 0 <= roundPos x.
Proof.
  intros Hx. unfold roundPos.
  apply Qmult_le_0_compat; [|apply Qlt_le_weak, pow2_pos].
  change 0 with (inject_Z 0). rewrite <- Zle_Qle. apply rne_ge_Z.
  apply Qle_shift_div_l; [apply pow2_pos|].
    change (inject_Z 0) with 0. rewrite Qmult_0_l. apply Qlt_le_weak, Hx.
Qed.

Lemma roundPos_comp x y : 0 < x -> x == y -> roundPos x == roundPos y.
Proof.
  intros Hx E. unfold roundPos, cexp. rewrite (flog2_comp x y Hx E).
  assert (E' : x / pow2 (Z.max (flog2 y - 52) (-1074))
               == y / pow2 (Z.max (flog2 y - 52) (-1074)))
    by (rewrite E; reflexivity).
  rewrite (rne_comp _ _ E'). reflexivity.
Qed.

Lemma roundPos_mono x y : 0 < x -> x <= y -> roundPos x <= roundPos y.
Proof.
  intros Hx H. assert (Hy : 0 < y) by lra.
  assert (He := cexp_mono x y Hx H).
  destruct (Z.eq_dec (cexp x) (cexp y)) as [E|NE].
  - unfold roundPos. rewrite E.
    apply Qmult_le_compat_r; [|apply Qlt_le_weak, pow2_pos].
    rewrite <- Zle_Qle. apply rne_mono.
    apply Qmult_le_compat_r; [exact H|].
    apply Qlt_le_weak, Qinv_lt_0_compat, pow2_pos.
  - eapply Qle_trans; [apply roundPos_le, Hx|].
    eapply Qle_trans; [|apply roundPos_ge; [exact Hy|]].
    + apply pow2_le. lia.
    + assert (A := cexp_min x). lia.
Qed.

(** A number [k * 2^e] with [0 < k < 2^53] and [-1074 <= e] is a double. *)
Lemma roundPos_fixed k e :
  (0 < k < 2 ^ 53)%Z -> (-1074 <= e)%Z ->
  roundPos (inject_Z k * pow2 e) == inject_Z k * pow2 e.
Proof.
  intros Hk He.
  set (y := inject_Z k * pow2 e).
  assert (Hy : 0 < y).
  { unfold y. apply Qmult_lt_0_compat; [|apply pow2_pos].
    change 0 with (inject_Z 0). rewrite <- Zlt_Qlt. lia. }
  destruct (Z.log2_spec k ltac:(lia)) as [L1 L2].
  assert (Hl : (0 <= Z.log2 k)%Z) by apply Z.log2_nonneg.
  assert (Hl52 : (Z.log2 k <= 52)%Z).
  { assert (A : (Z.log2 k < 53)%Z) by (apply Z.log2_lt_pow2; lia). lia. }
  assert (Hf : flog2 y = (Z.log2 k + e)%Z).
  { apply flog2_unique; [exact Hy| |].
    - unfold y. rewrite pow2_plus, (pow2_Z (Z.log2 k)) by lia.
      apply Qmult_le_compat_r; [|apply Qlt_le_weak, pow2_pos].
      rewrite <- Zle_Qle. exact L1.
    - unfold y. replace (Z.log2 k + e + 1)%Z with ((Z.log2 k + 1) + e)%Z by lia.
      rewrite pow2_plus, (pow2_Z (Z.log2 k + 1)) by lia.
      apply Qmult_lt_compat_r; [apply pow2_pos|].
      rewrite <- Zlt_Qlt. exact L2. }
  unfold roundPos, cexp. rewrite Hf.
  set (e' := Z.max (Z.log2 k + e - 52) (-1074)).
  assert (He' : (e' <= e)%Z) by (unfold e'; lia).
  assert (P : pow2 e == pow2 (e - e') * pow2 e').
  { rewrite <- pow2_plus. replace (e - e' + e')%Z with e by lia. reflexivity. }
  assert (Hm : y / pow2 e' == inject_Z (k * 2 ^ (e - e'))).
  { unfold y. rewrite inject_Z_mult, <- (pow2_Z (e - e')) by lia.
    rewrite P. field. apply Qnot_eq_sym, Qlt_not_eq, pow2_pos. }
  rewrite (rne_comp _ _ Hm), rne_Z.
  rewrite inject_Z_mult, <- (pow2_Z (e - e')) by lia.
  unfold y. rewrite P. ring.
Qed.

(** The rounding of a positive number is [0] or a double. *)
Lemma roundPos_shape x :
  0 < x ->
  roundPos x == 0
  \/ exists k e, (0 < k < 2 ^ 53)%Z /\ (-1074 <= e)%Z
                 /\ roundPos x == inject_Z k * pow2 e.
Proof.
  intros Hx.
  set (k := rne (x / pow2 (cexp x))).
  assert (Hk0 : (0 <= k)%Z).
  { apply rne_ge_Z. apply Qle_shift_div_l; [apply pow2_pos|].
    change (inject_Z 0) with 0. rewrite Qmult_0_l. apply Qlt_le_weak, Hx. }
  assert (Hk1 : (k <= 2 ^ 53)%Z).
  { apply rne_le_Z. apply Qlt_le_weak, mantissa_lt, Hx. }
  destruct (Z.eq_dec k 0%Z) as [Z0|NZ].
  - left. unfold roundPos. fold k. rewrite Z0. simpl. ring.
  - right. destruct (Z.eq_dec k (2 ^ 53)%Z) as [E|NE].
    + exists (2 ^ 52)%Z, (cexp x + 1)%Z. split; [lia|]. split.
      * assert (A := cexp_min x). lia.
      * unfold roundPos. fold k. rewrite E, pow2_succ.
        change (inject_Z (2 ^ 53)) with (2 * inject_Z (2 ^ 52)). ring.
    + exists k, (cexp x). split; [lia|]. split; [apply cexp_min|].
      reflexivity.
Qed.


(** Rounding to the nearest double. *)

Lemma round_pos x : 0 < x -> round x == roundPos x.
Proof.
  intros Hx. unfold round. rewrite Qred_correct.
  destruct (Qcompare_spec x 0) as [E|L|G]; [exfalso; lra|exfalso; lra|].
  reflexivity.
Qed.

Lemma round_neg x : x < 0 -> round x == - roundPos (- x).
Proof.
  intros Hx. unfold round. rewrite Qred_correct.
  destruct (Qcompare_spec x 0) as [E|L|G]; [exfalso; lra| |exfalso; lra].
  reflexivity.
Qed.

Lemma round_zero x : x == 0 -> round x == 0.
Proof.
  intros Hx. unfold round. rewrite Qred_correct.
  destruct (Qcompare_spec x 0) as [E|L|G]; [|exfalso; lra|exfalso; lra].
  reflexivity.
Qed.

Lemma round_comp x y : x == y -> round x = round y.
Proof.
  intros E. unfold round. apply Qred_complete.
  rewrite (Qcompare_comp _ _ E 0 0 (Qeq_refl _)).
  destruct (Qcompare_spec y 0) as [Z|L|G].
  - reflexivity.
  - apply Qopp_comp. apply roundPos_comp; [lra|]. rewrite E. reflexivity.
  - apply roundPos_comp; [lra|exact E].
Qed.

Lemma round_opp x : round (- x) == - round x.
Proof.
  destruct (Q_dec x 0) as [[L|G]|Z].
  - rewrite (round_pos (- x)) by lra. rewrite (round_neg x) by lra. ring.
  - rewrite (round_neg (- x)) by lra. rewrite (round_pos x) by lra.
    rewrite (roundPos_comp (- - x) x); [reflexivity|lra|ring].
  - rewrite (round_zero x Z), (round_zero (- x)) by lra. reflexivity.
Qed.

Lemma round_nonneg x : 0 <= x -> 0 <= round x.
Proof.
  intros Hx. destruct (Qlt_le_dec 0 x) as [P|N].
  - rewrite round_pos by exact P. apply roundPos_nonneg, P.
  - rewrite round_zero by lra. lra.
Qed.

Lemma round_nonpos x : x <= 0 -> round x <= 0.
Proof.
  intros Hx. assert (A := round_nonneg (- x) ltac:(lra)).
  rewrite round_opp in A. lra.
Qed.

(** Rounding preserves the order. *)
Lemma round_mono x y : x <= y -> round x <= round y.
Proof.
  intros H.
  destruct (Qlt_le_dec 0 x) as [Px|Nx].
  - rewrite (round_pos x), (round_pos y) by lra. apply roundPos_mono; assumption.
  - destruct (Qlt_le_dec y 0) as [Ny|Py].
    + rewrite (round_neg x), (round_neg y) by lra.
      assert (A := roundPos_mono (- y) (- x) ltac:(lra) ltac:(lra)). lra.
    + assert (A := round_nonpos x Nx). assert (B := round_nonneg y Py). lra.
Qed.

Lemma round_fixed k e :
  (Z.abs k < 2 ^ 53)%Z -> (-1074 <= e)%Z ->
  round (inject_Z k * pow2 e) == inject_Z k * pow2 e.
Proof.
  intros Hk He. assert (Hp := pow2_pos e).
  destruct (Z.lt_trichotomy k 0%Z) as [N|[Z0|P]].
  - assert (A : inject_Z k * pow2 e == - (inject_Z (- k) * pow2 e)).
    { rewrite inject_Z_opp. ring. }
    rewrite (round_comp _ _ A), round_opp.
    assert (B : 0 < inject_Z (- k) * pow2 e).
    { apply Qmult_lt_0_compat; [|exact Hp].
      change 0 with (inject_Z 0). rewrite <- Zlt_Qlt. lia. }
    rewrite (round_pos _ B), roundPos_fixed by lia. symmetry. exact A.
  - subst k. rewrite round_zero; [|ring]. ring.
  - assert (B : 0 < inject_Z k * pow2 e).
    { apply Qmult_lt_0_compat; [|exact Hp].
      change 0 with (inject_Z 0). rewrite <- Zlt_Qlt. lia. }
    rewrite (round_pos _ B), roundPos_fixed by lia. reflexivity.
Qed.

Lemma round_canonical a b : round a == round b -> round a = round b.
Proof.
  unfold round. intros H. apply Qred_eq_iff. apply Qeq_Qred_iff. exact H.
Qed.

(** A rounded number rounds to itself. *)
Lemma round_idem x : round (round x) = round x.
Proof.
  assert (Hpos : forall y, 0 < y -> round (roundPos y) == roundPos y).
  { intros y Hy. destruct (roundPos_shape y Hy) as [Z0|(k & e & Hk & He & E)].
    - rewrite (round_comp _ _ Z0), Z0. reflexivity.
    - rewrite (round_comp _ _ E), E. apply round_fixed; [lia|exact He]. }
  assert (E : round (round x) == round x).
  { destruct (Q_dec x 0) as [[L|G]|Z0].
    - rewrite (round_comp _ _ (round_neg x L)), round_opp, Hpos by lra.
      rewrite (round_neg x L). reflexivity.
    - rewrite (round_comp _ _ (round_pos x G)), Hpos by lra.
      rewrite (round_pos x G). reflexivity.
    - rewrite (round_comp _ _ (round_zero x Z0)), (round_zero x Z0).
      reflexivity. }
  apply round_canonical, E.
Qed.

Lemma isDouble_iff x : isDouble x = true <-> round x == x.
Proof. apply Qeq_bool_iff. Qed.

Lemma isDouble_round x : isDouble (round x) = true.
Proof. apply isDouble_iff. rewrite round_idem. reflexivity. Qed.

(** Against a double, a comparison of the exact value carries over to the
    rounded one. *)
Lemma round_le_double x c : isDouble c = true -> x <= c -> round x <= c.
Proof.
  intros Hc H. apply isDouble_iff in Hc. rewrite <- Hc. apply round_mono, H.
Qed.

Lemma round_ge_double x c : isDouble c = true -> c <= x -> c <= round x.
Proof.
  intros Hc H. apply isDouble_iff in Hc. rewrite <- Hc. apply round_mono, H.
Qed.

End RoundFacts.

(** The arithmetic on some decimal literals: [0.1 + 0.2] is
    [0.30000000000000004], and the differences [1000.3 - 0.3] and
    [5000.7 - 0.7] are [1000] and [5000] although the doubles are closer to
    each other than that. *)
Example double_arithmetic_samples :
  Num.add (Num.round (1 # 10)) (Num.round (2 # 10))
  = Num.round (30000000000000004 # 100000000000000000)
  /\ Num.sub (Num.round (10003 # 10)) (Num.round (3 # 10)) = 1000%Q
  /\ (Num.round (10003 # 10) - Num.round (3 # 10) < 1000)%Q
  /\ Num.sub (Num.round (50007 # 10)) (Num.round (7 # 10)) = 5000%Q
  /\ (Num.round (50007 # 10) - Num.round (7 # 10) < 5000)%Q
  /\ Num.round (3 # 10) = (5404319552844595 # 18014398509481984)%Q.
Proof. vm_compute. repeat split; reflexivity. Qed.

(** ** Properties of [getRating] and [bindReporter] *)

Section ReporterFacts.

Import Reporter.
Context {E : Type}.

Lemma emit_nonpositive th rac force (b : Bound E) :
  (value (metric b) <= 0)%Q -> emit th rac force b = b.
Proof.
  intros H. unfold emit.
  apply NumFacts.gtb_false in H. rewrite H. reflexivity.
Qed.

Lemma emit_unforced th force (b : Bound E) rac :
  Num.truthy rac = false -> Num.truthy force = false -> emit th rac force b = b.
Proof.
  intros Hr Hf. unfold emit. rewrite Hr, Hf. simpl.
  destruct (Num.gtb _ _); reflexivity.
Qed.

Lemma calls_mutate f (b : Bound E) : calls (mutate f b) = calls b.
Proof. reflexivity. Qed.

End ReporterFacts.

(** A forced call on a positive value does reach the consumer, with
    [delta = value] the first time and the rating of the value. *)
Example emit_forced_first_call :
  Reporter.calls
    (Reporter.emit OnTTFB.TTFBThresholds None (Some true)
       (Reporter.bindReporter []
          (mkMetric TTFB 900 good 0 ([] : list nat) 1%positive navigate)))
  = [mkMetric TTFB 900 needs_improvement (900 - 0) [] 1%positive navigate].
Proof. reflexivity. Qed.

(** C8.  [getRating] is a function of the value and the threshold pair
    [(t0, t1)] with [t0 <= t1]: a value of at most [t0] is good, a value above
    [t0] and at most [t1] needs improvement, a value above [t1] is poor; the
    value [t0] itself is good and, when the two thresholds differ, the value
    [t1] itself needs improvement (both tests are strict [>]). *)
Theorem getRating_classification (v t0 t1 : Q) :
  (t0 <= t1)%Q ->
  ((v <= t0)%Q -> Reporter.getRating v (t0, t1) = good) /\
  ((t0 < v)%Q /\ (v <= t1)%Q -> Reporter.getRating v (t0, t1) = needs_improvement) /\
  ((t1 < v)%Q -> Reporter.getRating v (t0, t1) = poor) /\
  Reporter.getRating t0 (t0, t1) = good /\
  ((t0 < t1)%Q -> Reporter.getRating t1 (t0, t1) = needs_improvement).
Proof.
  intros Hord.
  assert (Hgood : forall x, (x <= t0)%Q -> Reporter.getRating x (t0, t1) = good).
  { intros x Hx. unfold Reporter.getRating. simpl.
    assert (H1 : Num.gtb x t1 = false) by (apply NumFacts.gtb_false; lra).
    assert (H0 : Num.gtb x t0 = false) by (apply NumFacts.gtb_false; lra).
    rewrite H1, H0. reflexivity. }
  assert (Hni : forall x, (t0 < x)%Q -> (x <= t1)%Q ->
            Reporter.getRating x (t0, t1) = needs_improvement).
  { intros x Hx0 Hx1. unfold Reporter.getRating. simpl.
    assert (H1 : Num.gtb x t1 = false) by (apply NumFacts.gtb_false; lra).
    assert (H0 : Num.gtb x t0 = true) by (apply NumFacts.gtb_true; lra).
    rewrite H1, H0. reflexivity. }
  repeat split.
  - exact (Hgood v).
  - intros [Ha Hb]. exact (Hni v Ha Hb).
  - intros Hv. unfold Reporter.getRating. simpl.
    assert (H1 : Num.gtb v t1 = true) by (apply NumFacts.gtb_true; lra).
    rewrite H1. reflexivity.
  - apply Hgood. lra.
  - intros Hlt. apply Hni; lra.
Qed.

Lemma getRating_classification_witness :
  Reporter.getRating (1 # 10) (1 # 10, 1 # 4) = good /\
  Reporter.getRating (1 # 4) (1 # 10, 1 # 4) = needs_improvement.
Proof.
  assert (Hord : (1 # 10 <= 1 # 4)%Q) by (vm_compute; discriminate).
  destruct (getRating_classification (1 # 10) (1 # 10) (1 # 4) Hord)
    as (_ & _ & _ & Hg & Hn).
  split; [exact Hg | apply Hn; vm_compute; reflexivity].
Defined.

(** C9.  With [reportAllChanges] false or absent, no sequence of record
    mutations and calls of the returned function in which no call passes a
    true [forceReport] ever invokes the consumer. *)
Theorem bindReporter_unforced_silent {E : Type} (th : Reporter.MetricRatingThresholds)
    (rac : option bool) (ops : list (Reporter.Op E)) (b : Reporter.Bound E) :
  Num.truthy rac = false ->
  forallb Reporter.unforced ops = true ->
  Reporter.calls (Reporter.run th rac ops b) = Reporter.calls b.
Proof.
  intros Hrac. revert b.
  induction ops as [|o ops IH]; intros b Hops; [reflexivity|].
  simpl in Hops. apply andb_true_iff in Hops as [Ho Hops].
  unfold Reporter.run in *. simpl. rewrite (IH _ Hops).
  destruct o as [f|force]; simpl.
  - reflexivity.
  - simpl in Ho. apply negb_true_iff in Ho.
    rewrite (emit_unforced th force b rac Hrac Ho). reflexivity.
Qed.

Lemma bindReporter_unforced_silent_witness :
  Reporter.calls
    (Reporter.run (1 # 10, 1 # 4) None
       [Reporter.Mutate (set_value 5); Reporter.Emit None;
        Reporter.Mutate (set_value 7); Reporter.Emit (Some false)]
       (Reporter.bindReporter []
          (mkMetric LCP (-1) good 0 ([] : list nat) 1%positive navigate)))
  = [].
Proof.
  apply (bindReporter_unforced_silent (E := nat)); reflexivity.
Defined.

(** ** Properties of the CLS session windowing *)

Section CLSFacts.

Import OnCLS.
Local Open Scope Q_scope.

Lemma value_emit {E} th rac force (b : Reporter.Bound E) :
  value (Reporter.metric (Reporter.emit th rac force b)) = value (Reporter.metric b).
Proof.
  unfold Reporter.emit.
  repeat match goal with |- context [if ?c then _ else _] => destruct c end;
    reflexivity.
Qed.

Lemma clsValue_handleEntry st e : clsValue (handleEntry st e) = clsValue st.
Proof.
  unfold handleEntry, clsValue.
  destruct (hadRecentInput e); simpl; [reflexivity|].
  destruct (joins st e); simpl; [|reflexivity].
  destruct (shared st); reflexivity.
Qed.

Lemma clsValue_fold es st : clsValue (fold_left handleEntry es st) = clsValue st.
Proof.
  revert st. induction es as [|e es IH]; intros st; simpl; [reflexivity|].
  rewrite IH. apply clsValue_handleEntry.
Qed.

(** What one call of [handleEntries] does to the session and to the record. *)
Lemma session_handleEntries rac es st :
  sessionValue (handleEntries rac es st) = sessionValue (fold_left handleEntry es st)
  /\ sessionEntries (handleEntries rac es st)
     = sessionEntries (fold_left handleEntry es st).
Proof.
  unfold handleEntries. destruct (Num.gtb _ _); split; reflexivity.
Qed.

Lemma clsValue_handleEntries rac es st :
  clsValue (handleEntries rac es st)
  = if Num.gtb (sessionValue (fold_left handleEntry es st)) (clsValue st)
    then sessionValue (fold_left handleEntry es st) else clsValue st.
Proof.
  unfold handleEntries.
  change (value (Reporter.metric (bound (fold_left handleEntry es st))))
    with (clsValue (fold_left handleEntry es st)).
  rewrite clsValue_fold.
  destruct (Num.gtb _ _).
  - unfold clsValue. simpl. rewrite value_emit. reflexivity.
  - apply clsValue_fold.
Qed.

(** The record's value never decreases across a call of [handleEntries]. *)
Lemma clsValue_monotone rac es st :
  clsValue st <= clsValue (handleEntries rac es st).
Proof.
  rewrite clsValue_handleEntries.
  destruct (Num.gtb _ _) eqn:G.
  - apply NumFacts.gtb_true in G. lra.
  - lra.
Qed.

Lemma gaps_tail a tl : gapsBelow1000 (a :: tl) -> gapsBelow1000 tl.
Proof. destruct tl; cbn [gapsBelow1000]; tauto. Qed.

Lemma gaps_head a b tl :
  gapsBelow1000 (a :: b :: tl) ->
  ls_startTime a <= ls_startTime b
  /\ Num.sub (ls_startTime b) (ls_startTime a) < 1000.
Proof. cbn [gapsBelow1000]. tauto. Qed.

Lemma gaps_later a tl :
  gapsBelow1000 (a :: tl) ->
  Forall (fun x => ls_startTime a <= ls_startTime x) tl.
Proof.
  revert a. induction tl as [|b tl IH]; intros a H; constructor.
  - apply (gaps_head _ _ _ H).
  - assert (Hb := IH b (gaps_tail _ _ H)).
    destruct (gaps_head _ _ _ H) as [H0 _].
    eapply List.Forall_impl; [|exact Hb]. cbv beta. intros x Hx. lra.
Qed.

Lemma gaps_prefix p q : gapsBelow1000 (p ++ q) -> gapsBelow1000 p.
Proof.
  induction p as [|a p IH]; [intros _; exact I|].
  intros H. change ((a :: p) ++ q) with (a :: (p ++ q)) in H.
  assert (Ht := IH (gaps_tail _ _ H)).
  destruct p as [|b p]; [split; exact I|].
  split; [apply (gaps_head a b (p ++ q) H)|exact Ht].
Qed.

Lemma span_prefix p q : spanBelow5000 (p ++ q) -> spanBelow5000 p.
Proof.
  destruct p as [|a p]; simpl; [tauto|].
  intros H. apply Forall_app in H. tauto.
Qed.

(** The accumulated sum. *)

Lemma sumFrom_cons s e es :
  sumFrom s (e :: es) = sumFrom (Num.add s (ls_value e)) es.
Proof. reflexivity. Qed.

Lemma sumFrom_app s p q : sumFrom s (p ++ q) = sumFrom (sumFrom s p) q.
Proof. unfold sumFrom. apply fold_left_app. Qed.

Lemma add_comp s s' v : s == s' -> Num.add s v = Num.add s' v.
Proof.
  intros E. unfold Num.add. apply RoundFacts.round_comp. rewrite E. reflexivity.
Qed.

Lemma sumFrom_comp es s s' : s == s' -> sumFrom s es == sumFrom s' es.
Proof.
  intros E. destruct es as [|e es]; [exact E|].
  rewrite !sumFrom_cons, (add_comp s s' _ E). reflexivity.
Qed.

(** Adding to nothing gives the number itself. *)
Lemma add_zero s v : s == 0 -> Num.isDouble v = true -> Num.add s v == v.
Proof.
  intros Hs Hv. apply RoundFacts.isDouble_iff in Hv.
  unfold Num.add. rewrite (RoundFacts.round_comp (s + v) v); [exact Hv|].
  rewrite Hs. ring.
Qed.

Lemma add_nonneg s v : 0 <= s -> 0 <= v -> 0 <= Num.add s v.
Proof. intros Hs Hv. apply RoundFacts.round_nonneg. lra. Qed.

(** Adding a non-negative number to a double does not make it smaller. *)
Lemma add_ge s v : Num.isDouble s = true -> 0 <= v -> s <= Num.add s v.
Proof. intros Hs Hv. apply RoundFacts.round_ge_double; [exact Hs|lra]. Qed.

Lemma sumFrom_double es : forall s,
  Num.isDouble s = true -> Num.isDouble (sumFrom s es) = true.
Proof.
  induction es as [|e es IH]; intros s Hs; [exact Hs|].
  rewrite sumFrom_cons. apply IH, RoundFacts.isDouble_round.
Qed.

Lemma sumFrom_ge es : forall s,
  Num.isDouble s = true -> Forall (fun e => 0 <= ls_value e) es ->
  s <= sumFrom s es.
Proof.
  induction es as [|e es IH]; intros s Hs Hv; [unfold sumFrom; simpl; lra|].
  inversion Hv as [|? ? Hv0 Hv']; subst. rewrite sumFrom_cons.
  eapply Qle_trans; [apply (add_ge s _ Hs Hv0)|].
  apply IH; [apply RoundFacts.isDouble_round|exact Hv'].
Qed.

(** A later start of the window only shortens the computed distance. *)
Lemma sub_later t t0 t1 : t0 <= t1 -> Num.sub t t1 <= Num.sub t t0.
Proof. intros H. apply RoundFacts.round_mono. lra. Qed.

(** While the samples stay inside the window that starts at [t0], an open
    session only grows. *)
Lemma session_accumulates es : forall st t0,
  Forall (fun e => hadRecentInput e = false
                   /\ 0 <= ls_value e /\ Num.isDouble (ls_value e) = true
                   /\ t0 <= ls_startTime e
                   /\ Num.sub (ls_startTime e) t0 < 5000) es ->
  match list.last (sessionEntries st) with
  | Some l => gapsBelow1000 (l :: es)
  | None => gapsBelow1000 es
  end ->
  0 <= sessionValue st ->
  (0 < sessionValue st -> sessionEntries st <> []) ->
  Forall (fun x => t0 <= ls_startTime x) (sessionEntries st) ->
  sessionValue (fold_left handleEntry es st) == sumFrom (sessionValue st) es.
Proof.
  induction es as [|e es IH]; intros st t0 Hes Hgap Hsv Hne Hse;
    [unfold sumFrom; simpl; reflexivity|].
  inversion Hes as [|? ? (Hin & Hv & Hd & Ht0 & Ht5) Hes']; subst.
  assert (Hgap' : gapsBelow1000 (e :: es)).
  { destruct (list.last (sessionEntries st)); [exact (gaps_tail _ _ Hgap)|exact Hgap]. }
  rewrite sumFrom_cons. cbn [fold_left].
  unfold handleEntry at 2. rewrite Hin. simpl negb. cbv iota.
  destruct (joins st e) eqn:J.
  - rewrite (IH _ t0 Hes'); cbn [sessionValue sessionEntries].
    + reflexivity.
    + rewrite last_snoc. exact Hgap'.
    + apply add_nonneg; assumption.
    + intros _ Hnil. destruct (sessionEntries st); discriminate.
    + apply Forall_app. split; [exact Hse|]. constructor; [exact Ht0|constructor].
  - assert (Hz : sessionValue st == 0).
    { destruct (Qlt_le_dec 0 (sessionValue st)) as [Hpos|Hle]; [|lra].
      exfalso. unfold joins in J.
      assert (G : Num.gtb (sessionValue st) 0 = true) by (apply NumFacts.gtb_true; exact Hpos).
      rewrite G in J. cbn [andb] in J.
      specialize (Hne Hpos).
      destruct (sessionEntries st) as [|f rest] eqn:Hs; [congruence|].
      inversion Hse as [|? ? Hf _]; subst.
      destruct (list.last (f :: rest)) as [l|] eqn:Hl.
      2:{ apply last_None in Hl. discriminate. }
      destruct (gaps_head _ _ _ Hgap) as [_ Hlt].
      assert (G1 : Num.ltb (Num.sub (ls_startTime e) (startTimeOr0 (Some l))) 1000 = true)
        by (apply NumFacts.ltb_true; exact Hlt).
      assert (G2 : Num.ltb (Num.sub (ls_startTime e)
                              (startTimeOr0 (list.head (f :: rest)))) 5000 = true).
      { apply NumFacts.ltb_true. cbn [list.head startTimeOr0].
        eapply Qle_lt_trans; [apply (sub_later _ t0 _ Hf)|exact Ht5]. }
      rewrite G1, G2 in J. discriminate. }
    rewrite (IH _ (ls_startTime e)); cbn [sessionValue sessionEntries].
    + apply sumFrom_comp. symmetry. apply add_zero; assumption.
    + assert (Hl := gaps_later _ _ Hgap').
      rewrite Forall_forall in Hes'. rewrite Forall_forall in Hl.
      apply Forall_forall. intros x Hx.
      destruct (Hes' x Hx) as (A & B & B' & C & D). specialize (Hl x Hx).
      repeat split; try assumption.
      eapply Qle_lt_trans; [apply (sub_later _ t0 _ Ht0)|exact D].
    + exact Hgap'.
    + exact Hv.
    + intros _. discriminate.
    + constructor; [lra|constructor].
Qed.

End CLSFacts.

Section CLSSum.

Import OnCLS.
Local Open Scope Q_scope.

(** A run of samples inside one window, met with no open session. *)
Lemma session_total es st :
  sessionValue st == 0 ->
  Forall (fun e => hadRecentInput e = false) es ->
  Forall (fun e => 0 <= ls_value e /\ Num.isDouble (ls_value e) = true) es ->
  gapsBelow1000 es -> spanBelow5000 es ->
  sessionValue (fold_left handleEntry es st) == total es.
Proof.
  intros Hz Hin Hv Hgap Hspan.
  destruct es as [|e es]; [exact Hz|].
  inversion Hin as [|? ? Hin0 Hin']; subst.
  inversion Hv as [|? ? [Hv0 Hd0] Hv']; subst.
  assert (J : joins st e = false).
  { unfold joins.
    assert (G : Num.gtb (sessionValue st) 0 = false) by (apply NumFacts.gtb_false; lra).
    rewrite G. reflexivity. }
  unfold total. rewrite sumFrom_cons. cbn [fold_left].
  unfold handleEntry at 2. rewrite Hin0, J. simpl negb. cbv iota.
  rewrite (session_accumulates es _ (ls_startTime e)); cbn [sessionValue sessionEntries].
  - apply sumFrom_comp. symmetry. apply add_zero; [reflexivity|exact Hd0].
  - assert (Hl := gaps_later _ _ Hgap). cbn [spanBelow5000] in Hspan.
    rewrite Forall_forall in Hin', Hv', Hl, Hspan.
    apply Forall_forall. intros x Hx. destruct (Hv' x Hx).
    repeat split; auto.
  - exact Hgap.
  - exact Hv0.
  - intros _. discriminate.
  - constructor; [lra|constructor].
Qed.

Lemma deliver_snoc rac bs b st :
  OnCLS.deliver rac (bs ++ [b]) st = handleEntries rac b (OnCLS.deliver rac bs st).
Proof. unfold deliver. rewrite fold_left_app. reflexivity. Qed.

Lemma session_deliver rac bs : forall st,
  sessionValue (OnCLS.deliver rac bs st)
  = sessionValue (fold_left handleEntry (concat bs) st)
  /\ sessionEntries (OnCLS.deliver rac bs st)
     = sessionEntries (fold_left handleEntry (concat bs) st).
Proof.
  induction bs as [|b bs IH]; intros st; [split; reflexivity|].
  change (OnCLS.deliver rac (b :: bs) st) with (OnCLS.deliver rac bs (handleEntries rac b st)).
  simpl concat. rewrite fold_left_app.
  destruct (IH (handleEntries rac b st)) as [-> ->].
  destruct (session_handleEntries rac b st) as [Hv He].
  revert Hv He.
  generalize (handleEntries rac b st) (fold_left handleEntry b st).
  clear. induction (concat bs) as [|e es IH]; intros s1 s2 Hv He; simpl.
  - split; assumption.
  - apply IH; unfold handleEntry, joins; rewrite Hv, He;
      destruct (negb (hadRecentInput e)); try assumption;
      match goal with |- context [if ?c then _ else _] => destruct c end;
      reflexivity.
Qed.

Lemma clsValue_deliver rac bs : forall st,
  sessionValue st == 0 -> clsValue st == 0 ->
  Forall (fun e => hadRecentInput e = false) (concat bs) ->
  Forall (fun e => 0 <= ls_value e /\ Num.isDouble (ls_value e) = true)
         (concat bs) ->
  gapsBelow1000 (concat bs) -> spanBelow5000 (concat bs) ->
  clsValue (OnCLS.deliver rac bs st) == total (concat bs).
Proof.
  induction bs as [|b bs IH] using rev_ind; intros st Hs Hc Hin Hv Hgap Hspan.
  - exact Hc.
  - rewrite concat_app in Hin, Hv, Hgap, Hspan |- *. simpl concat in *.
    rewrite app_nil_r in *.
    apply Forall_app in Hin as [Hin1 Hin2]. apply Forall_app in Hv as [Hv1 Hv2].
    specialize (IH st Hs Hc Hin1 Hv1 (gaps_prefix _ _ Hgap) (span_prefix _ _ Hspan)).
    rewrite deliver_snoc, clsValue_handleEntries.
    assert (Hsess : sessionValue (fold_left handleEntry b (OnCLS.deliver rac bs st))
                    == total (concat bs ++ b)).
    { destruct (session_deliver rac (bs ++ [b]) st) as [Hsv _].
      rewrite deliver_snoc in Hsv.
      destruct (session_handleEntries rac b (OnCLS.deliver rac bs st)) as [Hsv' _].
      rewrite <- Hsv', Hsv, concat_app. simpl concat. rewrite app_nil_r.
      apply session_total; try assumption; apply Forall_app; split; assumption. }
    assert (Hb : total (concat bs) <= total (concat bs ++ b)).
    { unfold total. rewrite sumFrom_app. apply sumFrom_ge.
      - apply sumFrom_double. reflexivity.
      - eapply List.Forall_impl; [|exact Hv2]. cbv beta. tauto. }
    destruct (Num.gtb _ _) eqn:G.
    + exact Hsess.
    + apply NumFacts.gtb_false in G. lra.
Qed.

(** One sample without recent input: what the test of [joins] leads to. *)
Lemma single_joins rac st e :
  hadRecentInput e = false -> joins st e = true ->
  sessionValue (handleEntries rac [e] st) = Num.add (sessionValue st) (ls_value e)
  /\ sessionEntries (handleEntries rac [e] st) = sessionEntries st ++ [e].
Proof.
  intros Hin J. destruct (session_handleEntries rac [e] st) as [-> ->].
  cbn [fold_left]. unfold handleEntry. rewrite Hin, J. split; reflexivity.
Qed.

Lemma single_opens rac st e :
  hadRecentInput e = false -> joins st e = false ->
  sessionValue (handleEntries rac [e] st) = ls_value e
  /\ sessionEntries (handleEntries rac [e] st) = [e].
Proof.
  intros Hin J. destruct (session_handleEntries rac [e] st) as [-> ->].
  cbn [fold_left]. unfold handleEntry. rewrite Hin, J. split; reflexivity.
Qed.

(** The test on an open session, in terms of its first and last samples. *)
Lemma joins_open st first prev e :
  list.head (sessionEntries st) = Some first ->
  list.last (sessionEntries st) = Some prev ->
  0 < sessionValue st ->
  joins st e
  = Num.ltb (Num.sub (ls_startTime e) (ls_startTime prev)) 1000
    && Num.ltb (Num.sub (ls_startTime e) (ls_startTime first)) 5000.
Proof.
  intros Hfirst Hlast Hpos. unfold joins. rewrite Hfirst, Hlast.
  cbn [startTimeOr0].
  assert (G : Num.gtb (sessionValue st) 0 = true)
    by (apply NumFacts.gtb_true; exact Hpos).
  rewrite G. reflexivity.
Qed.

(** The computed difference is not below a double that the real difference
    reaches, and not above a double that the real difference stays under. *)
Lemma sub_reaches t u c :
  Num.isDouble c = true -> c <= t - u -> Num.ltb (Num.sub t u) c = false.
Proof.
  intros Hc H. apply NumFacts.ltb_false.
  apply RoundFacts.round_ge_double; assumption.
Qed.

Lemma sub_stays_under t u c d :
  Num.isDouble c = true -> c < d -> t - u <= c -> Num.ltb (Num.sub t u) d = true.
Proof.
  intros Hc Hd H. apply NumFacts.ltb_true.
  eapply Qle_lt_trans; [apply RoundFacts.round_le_double; eassumption|exact Hd].
Qed.

End CLSSum.

(** C3, as stated over the real gaps, fails at a rounding boundary.  The
    doubles written [0.3] and [1000.3] are less than [1000] ms apart, but the
    code's subtraction [entry.startTime - lastSessionEntry.startTime] gives
    exactly [1000]: the second sample opens a new session, and the record
    stays at the first magnitude instead of the sum. *)
Lemma cls_rounded_gap_splits_window :
  ~ (forall (a b : LayoutShift),
        hadRecentInput a = false -> hadRecentInput b = false ->
        (0 <= ls_value a)%Q -> (0 <= ls_value b)%Q ->
        Num.isDouble (ls_value a) = true -> Num.isDouble (ls_value b) = true ->
        Num.isDouble (ls_startTime a) = true ->
        Num.isDouble (ls_startTime b) = true ->
        (0 <= ls_startTime b - ls_startTime a)%Q ->
        (ls_startTime b - ls_startTime a < 1000)%Q ->
        (OnCLS.clsValue (OnCLS.deliver None [[a; b]] (OnCLS.activate Sample.page))
         == OnCLS.total [a; b])%Q).
Proof.
  intros H.
  pose (a := Sample.shift (1 # 4) (Num.round (3 # 10))).
  pose (b := Sample.shift (1 # 4) (Num.round (10003 # 10))).
  assert (Hm : (OnCLS.clsValue (OnCLS.deliver None [[a; b]] (OnCLS.activate Sample.page))
                == OnCLS.total [a; b])%Q).
  { apply (H a b); try reflexivity; vm_compute; try reflexivity; discriminate. }
  vm_compute in Hm. discriminate Hm.
Qed.

(** C3, amended.  Starting with no open session and a record value of [0]
    (the state at activation and after a cache restoration), take
    layout-shift samples without recent input, with non-negative magnitudes
    (a layout-shift score is a fraction of the viewport), in the order of
    their start times, such that the code's difference of two consecutive
    start times is less than [1000] and its difference between each start
    time and the first is less than [5000].  Delivered in any number of
    batches to [handleEntries], they leave the record's value equal to the
    sum of their magnitudes, added up in their order as doubles.  And in any
    state, a sample without recent input that starts more than [1000] ms
    after the session's last sample opens a new session that holds that
    sample alone, with its magnitude as [sessionValue]. *)
Theorem cls_window_sum_and_reset (rac : option bool) :
  (forall (batches : list (list LayoutShift)) (st : OnCLS.State),
      (OnCLS.sessionValue st == 0)%Q -> (OnCLS.clsValue st == 0)%Q ->
      Forall (fun e => hadRecentInput e = false) (concat batches) ->
      Forall (fun e => (0 <= ls_value e)%Q /\ Num.isDouble (ls_value e) = true)
             (concat batches) ->
      OnCLS.gapsBelow1000 (concat batches) ->
      OnCLS.spanBelow5000 (concat batches) ->
      (OnCLS.clsValue (OnCLS.deliver rac batches st) == OnCLS.total (concat batches))%Q)
  /\
  (forall (st : OnCLS.State) (prev e : LayoutShift),
      list.last (OnCLS.sessionEntries st) = Some prev ->
      hadRecentInput e = false ->
      (1000 < ls_startTime e - ls_startTime prev)%Q ->
      OnCLS.sessionValue (OnCLS.handleEntries rac [e] st) = ls_value e
      /\ OnCLS.sessionEntries (OnCLS.handleEntries rac [e] st) = [e]).
Proof.
  split.
  - intros batches st. apply clsValue_deliver.
  - intros st prev e Hlast Hin Hgap. apply single_opens; [exact Hin|].
    unfold OnCLS.joins. rewrite Hlast. cbn [OnCLS.startTimeOr0].
    rewrite (sub_reaches _ _ 1000); [|reflexivity|apply Qlt_le_weak, Hgap].
    apply andb_false_iff. left. apply andb_false_r.
Qed.

Lemma cls_window_sum_and_reset_witness :
  (OnCLS.clsValue
     (OnCLS.deliver None
        [[Sample.shift (Num.round (5 # 100)) 0;
          Sample.shift (Num.round (3 # 100)) 500];
         [Sample.shift (Num.round (2 # 100)) 900]]
        (OnCLS.activate Sample.page)) == Num.round (1 # 10))%Q
  /\ OnCLS.sessionValue
       (OnCLS.handleEntries None [Sample.shift (Num.round (1 # 100)) 2500]
          (OnCLS.handleEntries None [Sample.shift (Num.round (5 # 100)) 0]
             (OnCLS.activate Sample.page))) = Num.round (1 # 100).
Proof.
  destruct (cls_window_sum_and_reset None) as [Hsum Hreset].
  split.
  - rewrite Hsum.
    + vm_compute. reflexivity.
    + vm_compute. reflexivity.
    + vm_compute. reflexivity.
    + repeat constructor.
    + repeat constructor; vm_compute; discriminate.
    + cbn [concat app OnCLS.gapsBelow1000 Sample.shift ls_startTime].
      repeat split; vm_compute; try discriminate; reflexivity.
    + cbn [concat app OnCLS.spanBelow5000 Sample.shift ls_startTime].
      repeat constructor; vm_compute; reflexivity.
  - apply (Hreset _ (Sample.shift (Num.round (5 # 100)) 0)).
    + vm_compute. reflexivity.
    + reflexivity.
    + vm_compute. reflexivity.
Defined.

(** C4, as stated, fails: an open session with a positive value does not take
    in a sample that starts exactly [1000] ms after its last sample. *)
Lemma cls_gap_of_1000_opens_new_session :
  ~ (forall (st : OnCLS.State) (first prev e : LayoutShift),
        list.head (OnCLS.sessionEntries st) = Some first ->
        list.last (OnCLS.sessionEntries st) = Some prev ->
        (0 < OnCLS.sessionValue st)%Q ->
        hadRecentInput e = false ->
        (ls_startTime e - ls_startTime first < 5000)%Q ->
        (ls_startTime e - ls_startTime prev == 1000)%Q ->
        (OnCLS.sessionValue (OnCLS.handleEntries None [e] st)
         == Num.add (OnCLS.sessionValue st) (ls_value e))%Q).
Proof.
  intros H.
  pose (a := Sample.shift (Num.round (5 # 100)) 0).
  pose (e := Sample.shift (Num.round (3 # 100)) 1000).
  pose (st := OnCLS.handleEntries None [a] (OnCLS.activate Sample.page)).
  assert (Hm : (OnCLS.sessionValue (OnCLS.handleEntries None [e] st)
                == Num.add (OnCLS.sessionValue st) (ls_value e))%Q).
  { apply (H st a a e); reflexivity. }
  vm_compute in Hm. discriminate Hm.
Qed.

(** C4, amended.  An open session (positive [sessionValue]) takes in the next
    sample without recent input exactly when the code's differences
    [entry.startTime - last.startTime] and [entry.startTime - first.startTime]
    are less than [1000] and less than [5000]: then its magnitude is added to
    [sessionValue] and it is appended to [sessionEntries]; otherwise the
    sample opens a new session of its own.  In terms of the real distances:
    a sample that starts [1000] ms or more after the session's last sample,
    or [5000] ms or more after its first, opens a new session, and one that
    starts at most [1000 - 2^-43] ms after the last and at most
    [5000 - 2^-40] ms after the first (the doubles next below [1000] and
    [5000]) is taken in. *)
Theorem cls_session_extends_below_1000 (rac : option bool) (st : OnCLS.State)
    (first prev e : LayoutShift) :
  list.head (OnCLS.sessionEntries st) = Some first ->
  list.last (OnCLS.sessionEntries st) = Some prev ->
  (0 < OnCLS.sessionValue st)%Q ->
  hadRecentInput e = false ->
  ((Num.sub (ls_startTime e) (ls_startTime prev) < 1000)%Q
   /\ (Num.sub (ls_startTime e) (ls_startTime first) < 5000)%Q ->
   OnCLS.sessionValue (OnCLS.handleEntries rac [e] st)
     = Num.add (OnCLS.sessionValue st) (ls_value e)
   /\ OnCLS.sessionEntries (OnCLS.handleEntries rac [e] st)
      = OnCLS.sessionEntries st ++ [e])
  /\
  ((1000 <= Num.sub (ls_startTime e) (ls_startTime prev))%Q
   \/ (5000 <= Num.sub (ls_startTime e) (ls_startTime first))%Q ->
   OnCLS.sessionValue (OnCLS.handleEntries rac [e] st) = ls_value e
   /\ OnCLS.sessionEntries (OnCLS.handleEntries rac [e] st) = [e])
  /\
  ((1000 <= ls_startTime e - ls_startTime prev)%Q
   \/ (5000 <= ls_startTime e - ls_startTime first)%Q ->
   OnCLS.sessionValue (OnCLS.handleEntries rac [e] st) = ls_value e
   /\ OnCLS.sessionEntries (OnCLS.handleEntries rac [e] st) = [e])
  /\
  ((ls_startTime e - ls_startTime prev <= 1000 - Num.pow2 (-43))%Q
   /\ (ls_startTime e - ls_startTime first <= 5000 - Num.pow2 (-40))%Q ->
   OnCLS.sessionValue (OnCLS.handleEntries rac [e] st)
     = Num.add (OnCLS.sessionValue st) (ls_value e)
   /\ OnCLS.sessionEntries (OnCLS.handleEntries rac [e] st)
      = OnCLS.sessionEntries st ++ [e]).
Proof.
  intros Hfirst Hlast Hpos Hin.
  assert (J := joins_open st first prev e Hfirst Hlast Hpos).
  assert (Hmerge :
    (Num.sub (ls_startTime e) (ls_startTime prev) < 1000)%Q ->
    (Num.sub (ls_startTime e) (ls_startTime first) < 5000)%Q ->
    OnCLS.joins st e = true).
  { intros Hgap Hspan. rewrite J.
    apply NumFacts.ltb_true in Hgap. apply NumFacts.ltb_true in Hspan.
    rewrite Hgap, Hspan. reflexivity. }
  assert (Hnew :
    (1000 <= Num.sub (ls_startTime e) (ls_startTime prev))%Q
    \/ (5000 <= Num.sub (ls_startTime e) (ls_startTime first))%Q ->
    OnCLS.joins st e = false).
  { rewrite J. intros [Hgap | Hspan].
    - apply NumFacts.ltb_false in Hgap. rewrite Hgap. reflexivity.
    - apply NumFacts.ltb_false in Hspan. rewrite Hspan. apply andb_false_r. }
  split; [|split; [|split]].
  - intros [Hgap Hspan]. apply single_joins; [exact Hin|]. apply Hmerge; assumption.
  - intros H. apply single_opens; [exact Hin|]. apply Hnew, H.
  - intros H. apply single_opens; [exact Hin|]. apply Hnew.
    destruct H as [Hgap | Hspan]; [left | right];
      apply RoundFacts.round_ge_double; try reflexivity; assumption.
  - intros [Hgap Hspan]. apply single_joins; [exact Hin|]. rewrite J.
    rewrite (sub_stays_under _ _ (1000 - Num.pow2 (-43)) 1000);
      [|vm_compute; reflexivity|vm_compute; reflexivity|exact Hgap].
    rewrite (sub_stays_under _ _ (5000 - Num.pow2 (-40)) 5000);
      [|vm_compute; reflexivity|vm_compute; reflexivity|exact Hspan].
    reflexivity.
Qed.

Lemma cls_session_extends_below_1000_witness :
  OnCLS.sessionValue
    (OnCLS.handleEntries None [Sample.shift (Num.round (3 # 100)) 999]
       (OnCLS.handleEntries None [Sample.shift (Num.round (5 # 100)) 0]
          (OnCLS.activate Sample.page)))
  = Num.round (8 # 100)
  /\ OnCLS.sessionValue
       (OnCLS.handleEntries None [Sample.shift (Num.round (3 # 100)) 1000]
          (OnCLS.handleEntries None [Sample.shift (Num.round (5 # 100)) 0]
             (OnCLS.activate Sample.page)))
     = Num.round (3 # 100)
  /\ OnCLS.sessionValue
       (OnCLS.handleEntries None
          [Sample.shift (1 # 4) (Num.round (10003 # 10))]
          (OnCLS.handleEntries None [Sample.shift (1 # 4) (Num.round (3 # 10))]
             (OnCLS.activate Sample.page)))
     = (1 # 4)%Q.
Proof.
  split; [|split].
  - refine (eq_trans (proj1 (proj1 (cls_session_extends_below_1000 None
              (OnCLS.handleEntries None [Sample.shift (Num.round (5 # 100)) 0]
                 (OnCLS.activate Sample.page))
              (Sample.shift (Num.round (5 # 100)) 0)
              (Sample.shift (Num.round (5 # 100)) 0)
              (Sample.shift (Num.round (3 # 100)) 999)
              eq_refl eq_refl eq_refl eq_refl) _)) _).
    + split; vm_compute; reflexivity.
    + vm_compute. reflexivity.
  - refine (proj1 (proj1 (proj2 (proj2 (cls_session_extends_below_1000 None
              (OnCLS.handleEntries None [Sample.shift (Num.round (5 # 100)) 0]
                 (OnCLS.activate Sample.page))
              (Sample.shift (Num.round (5 # 100)) 0)
              (Sample.shift (Num.round (5 # 100)) 0)
              (Sample.shift (Num.round (3 # 100)) 1000)
              eq_refl eq_refl eq_refl eq_refl))) _)).
    left. vm_compute. discriminate.
  - refine (proj1 (proj1 (proj2 (cls_session_extends_below_1000 None
              (OnCLS.handleEntries None [Sample.shift (1 # 4) (Num.round (3 # 10))]
                 (OnCLS.activate Sample.page))
              (Sample.shift (1 # 4) (Num.round (3 # 10)))
              (Sample.shift (1 # 4) (Num.round (3 # 10)))
              (Sample.shift (1 # 4) (Num.round (10003 # 10)))
              eq_refl eq_refl eq_refl eq_refl)) _)).
    left. vm_compute. discriminate.
Defined.

(** The record's value only moves upward within a navigation epoch: no event
    other than a cache restoration lowers it. *)
Lemma cls_value_never_decreases (rac : option bool) (st : OnCLS.State)
    (ev : OnCLS.Event) :
  (forall env, ev <> OnCLS.BFCacheRestore env) ->
  (OnCLS.clsValue st <= OnCLS.clsValue (OnCLS.step rac st ev))%Q.
Proof.
  intros Hev. destruct ev as [|es|es|env|]; simpl.
  - unfold OnCLS.report, OnCLS.clsValue. simpl. rewrite value_emit. lra.
  - apply clsValue_monotone.
  - unfold OnCLS.report, OnCLS.clsValue at 2. simpl. rewrite value_emit.
    apply clsValue_monotone.
  - destruct (Hev env eq_refl).
  - unfold OnCLS.report, OnCLS.clsValue. simpl. rewrite value_emit. lra.
Qed.

(** The scenario of three shifts of 0.05, 0.03 and 0.02 at 0, 500 and 900 ms,
    one batch each, with every change reported: the consumer sees the session
    grow, and the record ends at the double written 0.1, rated good. *)
Example cls_three_shifts :
  let st := OnCLS.deliver (Some true)
              [[Sample.shift (Num.round (5 # 100)) 0];
               [Sample.shift (Num.round (3 # 100)) 500];
               [Sample.shift (Num.round (2 # 100)) 900]]
              (OnCLS.activate Sample.page) in
  length (Reporter.calls (OnCLS.bound st)) = 3
  /\ OnCLS.clsValue st = Num.round (1 # 10)
  /\ rating (Reporter.metric (OnCLS.bound st)) = good
  /\ length (entries (Reporter.metric (OnCLS.bound st))) = 3.
Proof. vm_compute. repeat split; reflexivity. Qed.

(** C5, evaluated on the code.  One batch that holds a session of value [1/2]
    followed, more than a second later, by a session of value [1/10]: the
    comparison with the record runs once, after the whole batch, so the record
    ends at [1/10] and the consumer is told [1/10], although a session of
    value [1/2] was observed.  The same two samples in two batches give
    [1/2]. *)
Theorem cls_batch_loses_closed_session :
  let big := Sample.shift (1 # 2) 0 in
  let small := Sample.shift (1 # 10) 2000 in
  let st := OnCLS.handleEntries (Some true) [big; small]
              (OnCLS.activate Sample.page) in
  OnCLS.sessionValue (fold_left OnCLS.handleEntry [big] (OnCLS.activate Sample.page))
    = (1 # 2)%Q
  /\ OnCLS.clsValue st = (1 # 10)%Q
  /\ map value (Reporter.calls (OnCLS.bound st)) = [(1 # 10)%Q]
  /\ OnCLS.clsValue (OnCLS.deliver (Some true) [[big]; [small]] (OnCLS.activate Sample.page))
     = (1 # 2)%Q.
Proof. vm_compute. repeat split; reflexivity. Qed.

(** C1, evaluated on the code.  The guard of the returned function is
    [metric.value > 0] for every metric name, so a CLS record whose value is
    [0] is never handed to the consumer: not by a direct call, whatever
    [forceReport] and [reportAllChanges] are, not by the zero-delay timer that
    [onCLS] sets at activation, and not by the forced report of a page that is
    hidden without any layout shift. *)
Theorem cls_zero_value_never_emitted (rac force : option bool) (env : Env) :
  name (initMetric (E := LayoutShift) CLS (Some 0%Q) env) = CLS
  /\ Reporter.calls
       (Reporter.emit OnCLS.CLSThresholds rac force
          (Reporter.bindReporter [] (initMetric (E := LayoutShift) CLS (Some 0%Q) env)))
     = []
  /\ Reporter.calls (OnCLS.bound (OnCLS.run rac [OnCLS.Timer] (OnCLS.activate env))) = []
  /\ Reporter.calls (OnCLS.bound (OnCLS.run rac [OnCLS.Hidden []] (OnCLS.activate env)))
     = [].
Proof.
  split; [reflexivity|].
  split; [|split].
  - rewrite emit_nonpositive; [reflexivity|]. simpl. lra.
  - unfold OnCLS.run, OnCLS.step, OnCLS.report, fold_left, OnCLS.activate.
    cbn [OnCLS.bound]. rewrite emit_nonpositive; [reflexivity|]. simpl. lra.
  - unfold OnCLS.run, OnCLS.step, OnCLS.report, fold_left.
    assert (Hh : OnCLS.handleEntries rac [] (OnCLS.activate env) = OnCLS.activate env)
      by reflexivity.
    rewrite Hh. unfold OnCLS.activate. cbn [OnCLS.bound].
    rewrite emit_nonpositive; [reflexivity|]. simpl. lra.
Qed.

(** ** Properties of [onTTFB] *)

(** A cache restoration never reaches the consumer of [onTTFB]. *)
Lemma ttfb_restore_silent (rac : option bool) (env : Env) (st : OnTTFB.State) :
  Reporter.calls (OnTTFB.bound (OnTTFB.bfcacheRestore rac env st))
  = Reporter.calls (OnTTFB.bound st).
Proof.
  unfold OnTTFB.bfcacheRestore. destruct (OnTTFB.listening st); [|reflexivity].
  cbn [OnTTFB.bound]. rewrite emit_nonpositive; [reflexivity|]. simpl. lra.
Qed.

(** C2, evaluated on the code.  A page whose first byte arrived at [120] ms
    reports a TTFB of [120]; when it is later restored from the cache,
    [onTTFB] makes a fresh record of value [0] and calls [report(true)], but
    the guard [metric.value > 0] of the returned function stops it: the
    consumer has still been invoked once only, with [120]. *)
Theorem ttfb_restore_zero_not_emitted (rac : option bool) :
  let st := OnTTFB.ready rac Sample.page (OnTTFB.start Sample.page) in
  let st' := OnTTFB.bfcacheRestore rac Sample.restored st in
  map value (Reporter.calls (OnTTFB.bound st)) = [120%Q]
  /\ value (Reporter.metric (OnTTFB.bound st')) = 0%Q
  /\ id (Reporter.metric (OnTTFB.bound st')) = 2%positive
  /\ navigationType (Reporter.metric (OnTTFB.bound st')) = back_forward_cache
  /\ Reporter.calls (OnTTFB.bound st') = Reporter.calls (OnTTFB.bound st).
Proof.
  intros st st'. split; [reflexivity|].
  split; [reflexivity|]. split; [reflexivity|]. split; [reflexivity|].
  apply ttfb_restore_silent.
Qed.

(** ** Properties of the interaction aggregator *)

Section SortFacts.

Import Interactions.
Local Open Scope Q_scope.

Variable h : gmap positive Interaction.

Lemma insertDesc_perm r l : insertDesc h r l ≡ₚ r :: l.
Proof.
  induction l as [|x tl IH]; simpl; [reflexivity|].
  destruct (Num.ltb _ _); [|reflexivity].
  rewrite IH. apply perm_swap.
Qed.

Lemma sortDesc_perm l : sortDesc h l ≡ₚ l.
Proof.
  induction l as [|x tl IH]; simpl; [reflexivity|].
  rewrite insertDesc_perm, IH. reflexivity.
Qed.

Lemma insertDesc_sorted r l :
  StronglySorted (before h) l -> StronglySorted (before h) (insertDesc h r l).
Proof.
  induction 1 as [|x tl Hs IH Hx]; simpl.
  - repeat constructor.
  - destruct (Num.ltb _ _) eqn:C.
    + apply NumFacts.ltb_true in C. constructor; [exact IH|].
      rewrite insertDesc_perm. constructor; [|exact Hx].
      unfold before. lra.
    + apply NumFacts.ltb_false in C. constructor.
      * constructor; assumption.
      * constructor; [exact C|].
        eapply List.Forall_impl; [|exact Hx].
        unfold before. intros y Hy. lra.
Qed.

Lemma sortDesc_sorted l : StronglySorted (before h) (sortDesc h l).
Proof.
  induction l as [|x tl IH]; simpl; [constructor|].
  apply insertDesc_sorted, IH.
Qed.

Lemma sorted_take n l :
  StronglySorted (before h) l -> StronglySorted (before h) (take n l).
Proof.
  intros Hs. revert n. induction Hs as [|x tl Hs IH Hx]; intros [|n]; simpl;
    try constructor.
  - apply IH.
  - apply Forall_take. exact Hx.
Qed.

Lemma sorted_latencies l :
  StronglySorted (before h) l ->
  StronglySorted (fun x y => y <= x) (map (latencyOf h) l).
Proof.
  induction 1 as [|x tl Hs IH Hx]; simpl; constructor; [exact IH|].
  apply Forall_map. exact Hx.
Qed.

End SortFacts.

Section BoundedFacts.

Import Interactions.

Lemma bounded_truncate_sort st : bounded (truncate (sortList st)).
Proof.
  unfold truncate, bounded, descending, latencies.
  destruct (_ <? _)%nat eqn:L; simpl.
  - split.
    + rewrite length_take. lia.
    + apply sorted_latencies, sorted_take, sortDesc_sorted.
  - apply Nat.ltb_ge in L. simpl in L. split; [exact L|].
    apply sorted_latencies, sortDesc_sorted.
Qed.

Lemma bounded_process entry st :
  bounded st -> bounded (processInteractionEntry entry st).
Proof.
  intros Hb. unfold processInteractionEntry.
  destruct (negb _); [exact Hb|].
  destruct (_ || _); [|exact Hb].
  apply bounded_truncate_sort.
Qed.

Lemma bounded_reset n st : bounded (resetInteractions n st).
Proof.
  unfold bounded, descending, latencies. simpl. split; [lia|constructor].
Qed.

End BoundedFacts.

(** C6.  After any sequence of [processInteractionEntry] and
    [resetInteractions] calls, at most ten interactions are retained and
    their latencies are in descending order. *)
Theorem longest_interactions_bounded_sorted (cs : list Interactions.Call) :
  length (Interactions.longestInteractionList (Interactions.run cs Interactions.initial))
    <= 10
  /\ Interactions.descending (Interactions.latencies (Interactions.run cs Interactions.initial)).
Proof.
  change (Interactions.bounded (Interactions.run cs Interactions.initial)).
  assert (H0 : Interactions.bounded Interactions.initial).
  { split; [simpl; lia|constructor]. }
  revert H0. generalize Interactions.initial.
  induction cs as [|c cs IH]; intros st Hst; [exact Hst|].
  apply IH. destruct c as [entry|n]; simpl.
  - apply bounded_process, Hst.
  - apply bounded_reset.
Qed.

(** C7.  With a count of interactions since the epoch start that is not
    negative: when nothing is retained the function returns [undefined]; when
    [n > 0] interactions are retained, the index it reads lies in
    [[0, n - 1]] and it returns the element of the list at index
    [min (n - 1) (floor (count / 50))]. *)
Theorem estimateP98_index_in_range (interactionCount : Z) (st : Interactions.State) :
  (Interactions.prevInteractionCount st <= interactionCount)%Z ->
  let n := length (Interactions.longestInteractionList st) in
  let count := (interactionCount - Interactions.prevInteractionCount st)%Z in
  let i := Interactions.candidateInteractionIndex interactionCount st in
  (n = 0%nat -> Interactions.estimateP98LongestInteraction interactionCount st = None)
  /\ ((0 < n)%nat ->
      (0 <= i <= Z.of_nat n - 1)%Z
      /\ Interactions.estimateP98LongestInteraction interactionCount st
         = Interactions.longestInteractionList st
             !! Z.to_nat (Z.min (Z.of_nat n - 1) (count / 50))
      /\ is_Some (Interactions.estimateP98LongestInteraction interactionCount st)).
Proof.
  intros Hcount n count i.
  assert (Hdiv : (0 <= count / 50)%Z) by (apply Z.div_pos; unfold count; lia).
  unfold Interactions.estimateP98LongestInteraction, Interactions.arrayGet.
  fold i.
  assert (Hi : i = Z.min (Z.of_nat n - 1) (count / 50)) by reflexivity.
  split.
  - intros Hn.
    assert (Hneg : (i <? 0)%Z = true) by (apply Z.ltb_lt; lia).
    rewrite Hneg. reflexivity.
  - intros Hn.
    assert (Hpos : (i <? 0)%Z = false) by (apply Z.ltb_ge; lia).
    rewrite Hpos. split; [lia|]. split; [rewrite Hi; reflexivity|].
    apply lookup_lt_is_Some. fold n. lia.
Qed.

Section SyncFacts.

Import Interactions.

(** With an empty list and an empty map there is nothing to compare. *)
Lemma synced_cleared h n : synced (mkState h [] ∅ n).
Proof.
  split; [constructor|]. split; simpl.
  - intros r Hr. inversion Hr.
  - intros k r Hk. rewrite lookup_empty in Hk. discriminate.
Qed.

Lemma synced_initial : synced initial.
Proof. apply synced_cleared. Qed.

Lemma synced_reset n st : synced (resetInteractions n st).
Proof. apply synced_cleared. Qed.

(** Writing new fields into a listed object keeps the containers in step, as
    long as its [id] is left alone. *)
Lemma synced_update st r i i' :
  synced st -> heap st !! r = Some i -> id i' = id i ->
  synced (mkState (<[r := i']> (heap st)) (longestInteractionList st)
            (longestInteractionMap st) (prevInteractionCount st)).
Proof.
  intros (Hnd & Hl & Hm) Hr Hid. split; [exact Hnd|]. split; simpl.
  - intros r' Hr'. destruct (Hl r' Hr') as (j & Hj & Hmj).
    destruct (decide (r = r')) as [->|Hne].
    + exists i'. rewrite lookup_insert_eq. split; [reflexivity|].
      rewrite Hid. congruence.
    + exists j. rewrite lookup_insert_ne by exact Hne. split; assumption.
  - intros k r' Hk. destruct (Hm k r' Hk) as (Hin & j & Hj & Hjk).
    split; [exact Hin|].
    destruct (decide (r = r')) as [->|Hne].
    + exists i'. rewrite lookup_insert_eq. split; [reflexivity|]. congruence.
    + exists j. rewrite lookup_insert_ne by exact Hne. split; assumption.
Qed.

Lemma synced_mergeOrCreate entry st : synced st -> synced (mergeOrCreate entry st).
Proof.
  intros Hs. unfold mergeOrCreate.
  destruct (longestInteractionMap st !! interactionId entry) as [r|] eqn:Hk.
  - destruct (heap st !! r) as [i|] eqn:Hr; [|exact Hs].
    destruct (Num.gtb _ _); [apply (synced_update st r i); auto|].
    destruct (_ && _); [apply (synced_update st r i); auto|exact Hs].
  - destruct Hs as (Hnd & Hl & Hm).
    set (r := fresh (dom (heap st))).
    assert (Hfresh : heap st !! r = None).
    { apply not_elem_of_dom. apply is_fresh. }
    assert (Hout : r ∉ longestInteractionList st).
    { intros Hin. destruct (Hl r Hin) as (i & Hi & _). congruence. }
    split; [|split]; simpl.
    + apply NoDup_app. split; [exact Hnd|]. split; [|apply NoDup_singleton].
      intros x Hx Hx'. apply list_elem_of_singleton in Hx'. subst x. exact (Hout Hx).
    + intros r' Hr'. apply elem_of_app in Hr' as [Hr'|Hr'].
      * destruct (Hl r' Hr') as (i & Hi & Hmi).
        assert (r <> r') by (intros ->; exact (Hout Hr')).
        assert (interactionId entry <> id i) by (intros Heq; congruence).
        exists i. rewrite !lookup_insert_ne by assumption. split; assumption.
      * apply list_elem_of_singleton in Hr'. subst r'.
        eexists. rewrite lookup_insert_eq. split; [reflexivity|].
        simpl. apply lookup_insert_eq.
    + intros k r' Hkr. destruct (decide (interactionId entry = k)) as [<-|Hne].
      * rewrite lookup_insert_eq in Hkr. injection Hkr as <-.
        split; [apply elem_of_app; right; apply list_elem_of_singleton; reflexivity|].
        eexists. rewrite lookup_insert_eq. split; reflexivity.
      * rewrite lookup_insert_ne in Hkr by exact Hne.
        destruct (Hm k r' Hkr) as (Hin & i & Hi & Hik).
        split; [apply elem_of_app; left; exact Hin|].
        assert (r <> r') by (intros ->; exact (Hout Hin)).
        exists i. rewrite lookup_insert_ne by assumption. split; assumption.
Qed.

Lemma synced_sortList st : synced st -> synced (sortList st).
Proof.
  intros (Hnd & Hl & Hm).
  assert (Hp := sortDesc_perm (heap st) (longestInteractionList st)).
  split; [|split]; simpl.
  - rewrite Hp. exact Hnd.
  - intros r Hr. rewrite Hp in Hr. exact (Hl r Hr).
  - intros k r Hk. rewrite Hp. exact (Hm k r Hk).
Qed.

(** What the deletions of step 7.2 leave in the map. *)
Lemma lookup_evicted h l : forall m k r,
  fold_left (evict h) l m !! k = Some r <->
  m !! k = Some r /\ forall r' i, r' ∈ l -> h !! r' = Some i -> id i <> k.
Proof.
  induction l as [|x l IH]; intros m k r; simpl.
  - split; [intros H; split; [exact H|]|tauto].
    intros r' i Hr'. inversion Hr'.
  - rewrite IH. unfold evict. split.
    + intros [Hk Hrest]. destruct (h !! x) as [j|] eqn:Hx.
      * destruct (decide (id j = k)) as [Heq|Hne].
        { subst k. rewrite lookup_delete_eq in Hk. discriminate. }
        rewrite lookup_delete_ne in Hk by exact Hne.
        split; [exact Hk|]. intros r' i Hr' Hi.
        apply elem_of_cons in Hr' as [->|Hr']; [congruence|eauto].
      * split; [exact Hk|]. intros r' i Hr' Hi.
        apply elem_of_cons in Hr' as [->|Hr']; [congruence|eauto].
    + intros [Hk Hall]. split.
      * destruct (h !! x) as [j|] eqn:Hx; [|exact Hk].
        rewrite lookup_delete_ne; [exact Hk|].
        apply (Hall x j); [apply elem_of_cons; left; reflexivity|exact Hx].
      * intros r' i Hr'. apply Hall. apply elem_of_cons. right. exact Hr'.
Qed.

Lemma synced_truncate st : synced st -> synced (truncate st).
Proof.
  intros (Hnd & Hl & Hm). unfold truncate.
  destruct (_ <? _)%nat; [|split; [|split]; assumption].
  set (n := MAX_INTERACTIONS_TO_CONSIDER).
  assert (Hsplit := take_drop n (longestInteractionList st)).
  rewrite <- Hsplit in Hnd. apply NoDup_app in Hnd as (Hkept & Hdisj & _).
  assert (Hsub : forall r, r ∈ take n (longestInteractionList st) ->
                           r ∈ longestInteractionList st).
  { intros r Hr. rewrite <- Hsplit. apply elem_of_app. left. exact Hr. }
  assert (Hsub' : forall r, r ∈ drop n (longestInteractionList st) ->
                            r ∈ longestInteractionList st).
  { intros r Hr. rewrite <- Hsplit. apply elem_of_app. right. exact Hr. }
  split; [exact Hkept|]. split; simpl.
  - intros r Hr. destruct (Hl r (Hsub r Hr)) as (i & Hi & Hmi).
    exists i. split; [exact Hi|]. apply lookup_evicted. split; [exact Hmi|].
    intros r' j Hr' Hj Heq.
    destruct (Hl r' (Hsub' r' Hr')) as (j' & Hj' & Hmj').
    assert (j' = j) by congruence. subst j'.
    rewrite Heq, Hmi in Hmj'. injection Hmj' as ->.
    exact (Hdisj r' Hr Hr').
  - intros k r Hk. apply lookup_evicted in Hk as [Hk Hall].
    destruct (Hm k r Hk) as (Hin & i & Hi & Hik).
    split; [|exists i; split; assumption].
    rewrite <- Hsplit in Hin. apply elem_of_app in Hin as [Hin|Hin]; [exact Hin|].
    destruct (Hall r i Hin Hi Hik).
Qed.

Lemma synced_process entry st : synced st -> synced (processInteractionEntry entry st).
Proof.
  intros Hs. unfold processInteractionEntry.
  destruct (negb _); [exact Hs|].
  destruct (_ || _); [|exact Hs].
  apply synced_truncate, synced_sortList, synced_mergeOrCreate, Hs.
Qed.

Lemma synced_run cs : forall st, synced st -> synced (run cs st).
Proof.
  induction cs as [|c cs IH]; intros st Hs; [exact Hs|].
  apply IH. destruct c; simpl; [apply synced_process, Hs|apply synced_reset].
Qed.

(** In a synced state the map is the table that files each listed object
    under its [id], so it has as many entries as the list has elements. *)
Lemma synced_size st :
  synced st -> size (longestInteractionMap st) = length (longestInteractionList st).
Proof.
  intros (Hnd & Hl & Hm).
  set (kv := (fun r => (idOf (heap st) r, r)) <$> longestInteractionList st).
  assert (Hkeys : NoDup kv.*1).
  { unfold kv. rewrite <- list_fmap_compose.
    apply NoDup_fmap_2_strong; [|exact Hnd].
    intros x y Hx Hy. simpl. unfold idOf.
    destruct (Hl x Hx) as (i & Hi & Hmi). destruct (Hl y Hy) as (j & Hj & Hmj).
    rewrite Hi, Hj. intros Heq. rewrite Heq in Hmi. congruence. }
  assert (Heq : longestInteractionMap st = list_to_map kv).
  { apply map_eq. intros k.
    destruct (longestInteractionMap st !! k) as [r|] eqn:Hk.
    - symmetry. apply elem_of_list_to_map; [exact Hkeys|].
      destruct (Hm k r Hk) as (Hin & i & Hi & Hik).
      apply list_elem_of_fmap. exists r. split; [|exact Hin].
      unfold idOf. rewrite Hi, Hik. reflexivity.
    - destruct (list_to_map kv !! k) as [r|] eqn:Hk'; [|reflexivity].
      apply elem_of_list_to_map in Hk'; [|exact Hkeys].
      apply list_elem_of_fmap in Hk' as (r' & Heq & Hin).
      injection Heq as -> ->.
      destruct (Hl r' Hin) as (i & Hi & Hmi).
      unfold idOf in Hk. rewrite Hi in Hk. congruence. }
  rewrite Heq, map_size_list_to_map by exact Hkeys.
  unfold kv. apply length_fmap.
Qed.

End SyncFacts.

(** C10.  After any sequence of [processInteractionEntry] and
    [resetInteractions] calls the list holds no reference twice, the map has
    exactly as many entries as the list has interactions, every listed
    interaction is filed in the map under its own [id] and the entry points to
    that same object, and every entry of the map points to a listed
    interaction with that [id]: an interaction that left the list (cut off
    past the tenth place, or dropped by a reset) has no entry left. *)
Theorem interaction_map_matches_list (cs : list Interactions.Call) :
  let st := Interactions.run cs Interactions.initial in
  NoDup (Interactions.longestInteractionList st)
  /\ size (Interactions.longestInteractionMap st)
     = length (Interactions.longestInteractionList st)
  /\ (forall r, r ∈ Interactions.longestInteractionList st ->
        exists i, Interactions.heap st !! r = Some i
                  /\ Interactions.longestInteractionMap st !! Interactions.id i = Some r)
  /\ (forall k r, Interactions.longestInteractionMap st !! k = Some r ->
        r ∈ Interactions.longestInteractionList st
        /\ exists i, Interactions.heap st !! r = Some i /\ Interactions.id i = k).
Proof.
  intros st.
  assert (Hs : Interactions.synced st) by (apply synced_run, synced_initial).
  assert (Hsize := synced_size st Hs).
  destruct Hs as (Hnd & Hl & Hm).
  split; [exact Hnd|]. split; [exact Hsize|]. split; [exact Hl|exact Hm].
Qed.

Example three_latencies :
  Interactions.latencies Trace.three = [200%Q; 120%Q; 80%Q].
Proof. vm_compute. reflexivity. Qed.

Example twelve_latencies :
  Interactions.latencies Trace.twelve
  = map inject_Z [300; 120; 110; 100; 90; 80; 70; 60; 40; 30]%Z
  /\ Interactions.longestInteractionMap Trace.twelve !! Some 1%Z = None
  /\ Interactions.longestInteractionMap Trace.twelve !! Some 2%Z = None.
Proof. vm_compute. repeat split; reflexivity. Qed.

Lemma estimateP98_index_in_range_witness :
  (0 <= Interactions.candidateInteractionIndex 120 Trace.three <= 2)%Z
  /\ is_Some (Interactions.estimateP98LongestInteraction 120 Trace.three).
Proof.
  assert (Hcount : (Interactions.prevInteractionCount Trace.three <= 120)%Z)
    by (vm_compute; discriminate).
  destruct (estimateP98_index_in_range 120 Trace.three Hcount) as [_ Hsome].
  assert (Hn : (0 < length (Interactions.longestInteractionList Trace.three))%nat)
    by (vm_compute; lia).
  destruct (Hsome Hn) as (Hrange & _ & Hres).
  split; [exact Hrange|exact Hres].
Defined.

(** * Further properties *)

(** ** [bindReporter]: what the consumer receives *)

Section ReporterLog.

Import Reporter.
Context {E : Type}.
Local Open Scope Q_scope.

(** What an emission adds to the log. *)
Lemma emit_calls th rac force (b : Bound E) :
  emit th rac force b = b
  \/ (exists d, emit th rac force b
               = mkBound (metric b) (prevValue b) (Some d) (calls b))
  \/ (0 < value (metric b)
      /\ (prevValue b = None \/ ~ value (metric b) - prevOrZero (prevValue b) == 0)
      /\ exists m', m' = mkMetric (name (metric b)) (value (metric b))
                           (getRating (value (metric b)) th)
                           (value (metric b) - prevOrZero (prevValue b))
                           (entries (metric b)) (id (metric b))
                           (navigationType (metric b))
                    /\ emit th rac force b
                       = mkBound m' (Some (value (metric b)))
                           (Some (value (metric b) - prevOrZero (prevValue b)))
                           (calls b ++ [m'])).
Proof.
  unfold emit.
  destruct (Num.gtb (value (metric b)) 0) eqn:G; [|left; reflexivity].
  destruct (Num.truthy force || Num.truthy rac); [|left; reflexivity].
  apply NumFacts.gtb_true in G.
  destruct (negb (Num.eqb _ 0) || isUndefined (prevValue b)) eqn:D.
  - right. right. split; [exact G|]. split.
    + apply orb_true_iff in D as [D|D].
      * right. apply negb_true_iff in D. intros Hz.
        apply NumFacts.eqb_true in Hz. congruence.
      * left. destruct (prevValue b); [discriminate|reflexivity].
    + eexists. split; reflexivity.
  - right. left. eexists. reflexivity.
Qed.






End ReporterLog.

(** X1.  Whatever the owner does to the record and however the returned
    function is called, every record handed to the consumer of a fresh
    [bindReporter] has a positive value and carries the rating of that value
    under the binder's thresholds. *)
Theorem consumer_sees_positive_rated_records {E : Type}
    (th : Reporter.MetricRatingThresholds) (rac : option bool)
    (ops : list (Reporter.Op E)) (m : Metric E) :
  Forall (fun r => (0 < value r)%Q /\ rating r = Reporter.getRating (value r) th)
         (Reporter.calls (Reporter.run th rac ops (Reporter.bindReporter [] m))).
Proof.
  assert (H0 : Forall (fun r : Metric E =>
                         (0 < value r)%Q /\ rating r = Reporter.getRating (value r) th)
                      (Reporter.calls (Reporter.bindReporter [] m)))
    by constructor.
  revert H0. generalize (Reporter.bindReporter [] m).
  induction ops as [|o ops IH]; intros b Hb; [exact Hb|].
  apply IH. destruct o as [f|force]; simpl; [exact Hb|].
  destruct (emit_calls th rac force b) as [->|[[d ->]|(Hpos & _ & m' & -> & ->)]];
    try exact Hb.
  simpl. apply Forall_app. split; [exact Hb|].
  constructor; [|constructor]. simpl. split; [exact Hpos|reflexivity].
Qed.


(** X3.  Once the returned function has been called with [forceReport] true,
    calling it again, forced or not, before the record's value changes does
    not invoke the consumer a second time. *)
Theorem forced_report_not_repeated {E : Type}
    (th : Reporter.MetricRatingThresholds) (rac force : option bool)
    (b : Reporter.Bound E) :
  Reporter.calls (Reporter.emit th rac force (Reporter.emit th rac (Some true) b))
  = Reporter.calls (Reporter.emit th rac (Some true) b).
Proof.
  assert (Hsilent : forall b' : Reporter.Bound E,
             (exists p, Reporter.prevValue b' = Some p
                        /\ (value (Reporter.metric b') - p == 0)%Q)
             \/ (value (Reporter.metric b') <= 0)%Q ->
             Reporter.calls (Reporter.emit th rac force b') = Reporter.calls b').
  { intros b' [(p & Hp & Hz)|Hle].
    - unfold Reporter.emit. rewrite Hp. simpl.
      apply NumFacts.eqb_true in Hz. rewrite Hz. simpl.
      repeat match goal with |- context [if ?c then _ else _] => destruct c end;
        reflexivity.
    - rewrite emit_nonpositive by exact Hle. reflexivity. }
  apply Hsilent.
  unfold Reporter.emit at 1 2 3.
  destruct (Num.gtb (value (Reporter.metric b)) 0) eqn:G.
  2:{ right. apply NumFacts.gtb_false. exact G. }
  simpl.
  destruct (negb _ || Reporter.isUndefined (Reporter.prevValue b)) eqn:D; simpl.
  - left. eexists. split; [reflexivity|]. lra.
  - left. apply orb_false_iff in D as [D1 D2].
    destruct (Reporter.prevValue b) as [p|]; [|discriminate].
    exists p. split; [reflexivity|].
    apply negb_false_iff in D1. apply NumFacts.eqb_true in D1. exact D1.
Qed.

(** ** [initMetric], [getNavigationEntry] and [onTTFB] *)

Lemma ttfbLife_calls rac env restores :
  Reporter.calls (OnTTFB.bound (ttfbLife rac env restores))
  = Reporter.calls (OnTTFB.bound (OnTTFB.ready rac env (OnTTFB.start env))).
Proof.
  unfold ttfbLife. generalize (OnTTFB.ready rac env (OnTTFB.start env)).
  induction restores as [|e restores IH]; intros st; [reflexivity|].
  simpl. rewrite IH. apply ttfb_restore_silent.
Qed.


(** X5.  A navigation entry whose response has not started
    ([responseStart <= 0]) or is stamped at or after the current time does
    not count: [onTTFB] then never invokes the consumer, at readiness or at
    any later cache restoration. *)
Theorem ttfb_needs_a_started_response (rac : option bool)
    (raw : NavigationEntry) (now restoreTime : Q) (pre dis : bool) (uid : positive)
    (restores : list Env) :
  (responseStart raw <= 0)%Q \/ (now <= responseStart raw)%Q ->
  Reporter.calls
    (OnTTFB.bound (ttfbLife rac (pageAt (Some raw) now restoreTime pre dis uid) restores))
  = [].
Proof.
  intros Hbad. rewrite ttfbLife_calls.
  assert (Hnone : getNavigationEntry (Some raw) now = None).
  { unfold getNavigationEntry.
    destruct Hbad as [H|H].
    - apply NumFacts.gtb_false in H. rewrite H. reflexivity.
    - apply NumFacts.ltb_false in H. rewrite H, andb_false_r. reflexivity. }
  unfold OnTTFB.ready, pageAt. cbn [navigationEntry]. rewrite Hnone. reflexivity.
Qed.

Lemma ttfb_needs_a_started_response_witness :
  Reporter.calls
    (OnTTFB.bound
       (ttfbLife (Some true)
          (pageAt (Some (mkNavigationEntry (Some navigate) None 0)) 50 (-1)
                  false false 1)
          [Sample.restored]))
  = [].
Proof.
  apply ttfb_needs_a_started_response. left. vm_compute. discriminate.
Defined.

(** X6.  Once a persisted [pageshow] with a positive time stamp has been
    seen, every record [initMetric] makes is typed [back-forward-cache],
    whatever the navigation entry, the prerendering state and the discard
    flag say; a [pageshow] that is not persisted changes nothing.  Before any
    restoration, a page with a positive activation start is typed
    [prerender], even when it was discarded. *)
Theorem navigation_type_priority (nm : MetricName) (v : option Q) (env : Env)
    (timeStamp : Q) :
  ((0 < timeStamp)%Q ->
   navigationType (initMetric (E := unit) nm v (pageshow true timeStamp env))
   = back_forward_cache)
  /\ pageshow false timeStamp env = env
  /\ ((bfcacheRestoreTime env <= 0)%Q ->
      (exists n, navigationEntry env = Some n) ->
      (0 < getActivationStart env)%Q ->
      navigationType (initMetric (E := unit) nm v env) = prerender).
Proof.
  split; [|split].
  - intros Hts. unfold initMetric, pageshow. simpl.
    apply NumFacts.gtb_true in Hts. rewrite Hts. reflexivity.
  - reflexivity.
  - intros Hr [n Hn] Ha. unfold initMetric.
    apply NumFacts.gtb_false in Hr. rewrite Hr, Hn.
    apply NumFacts.gtb_true in Ha. rewrite Ha, orb_true_r. reflexivity.
Qed.

Lemma navigation_type_priority_witness :
  navigationType (initMetric (E := unit) LCP None Sample.restored)
  = back_forward_cache
  /\ navigationType
       (initMetric (E := unit) LCP None
          (mkEnv (Some (mkNavigationEntry (Some reload) (Some 35%Q) 120)) (-1)
                 false true 3))
     = prerender.
Proof.
  split.
  - apply (proj1 (navigation_type_priority LCP None
                    (mkEnv (navigationEntry Sample.page) (-1) false false 2) 200)).
    vm_compute. reflexivity.
  - apply (proj2 (proj2 (navigation_type_priority LCP None
                    (mkEnv (Some (mkNavigationEntry (Some reload) (Some 35%Q) 120)) (-1)
                       false true 3) 0))).
    + vm_compute. discriminate.
    + eexists. reflexivity.
    + vm_compute. reflexivity.
Defined.

(** ** [onCLS]: between events *)

Section CLSReach.

Import OnCLS.
Local Open Scope Q_scope.

Lemma remembered_emit {E} th rac force (b : Reporter.Bound E) :
  remembered b -> remembered (Reporter.emit th rac force b).
Proof.
  intros Hb.
  destruct (emit_calls th rac force b) as [->|[[d ->]|(_ & _ & m' & -> & ->)]].
  - exact Hb.
  - exact Hb.
  - unfold remembered. simpl. eexists _, _. split; reflexivity.
Qed.

Lemma remembered_mutate {E} f (b : Reporter.Bound E) :
  remembered b -> remembered (Reporter.mutate f b).
Proof. intros Hb. exact Hb. Qed.

Lemma remembered_handleEntry st e :
  remembered (bound st) -> remembered (bound (handleEntry st e)).
Proof.
  intros Hb. unfold handleEntry.
  destruct (negb _); [|exact Hb].
  destruct (joins st e); simpl; [|exact Hb].
  destruct (shared st); [apply remembered_mutate|]; exact Hb.
Qed.

Lemma remembered_fold es : forall st,
  remembered (bound st) -> remembered (bound (fold_left handleEntry es st)).
Proof.
  induction es as [|e es IH]; intros st Hb; [exact Hb|].
  apply IH, remembered_handleEntry, Hb.
Qed.

Lemma clsSettled_handleEntries rac es st :
  remembered (bound st) -> clsSettled (handleEntries rac es st).
Proof.
  intros Hb. split.
  - destruct (session_handleEntries rac es st) as [-> _].
    rewrite clsValue_handleEntries.
    destruct (Num.gtb _ _) eqn:G; [lra|].
    apply NumFacts.gtb_false in G. exact G.
  - unfold handleEntries.
    destruct (Num.gtb _ _); simpl.
    + apply remembered_emit, remembered_mutate, remembered_fold, Hb.
    + apply remembered_fold, Hb.
Qed.

Lemma clsSettled_report rac force st : clsSettled st -> clsSettled (report rac force st).
Proof.
  intros [Hv Hb]. split.
  - unfold report, clsValue. simpl. rewrite value_emit. exact Hv.
  - apply remembered_emit, Hb.
Qed.

Lemma clsSettled_activate env : clsSettled (activate env).
Proof. split; [unfold clsValue; simpl; lra|exact I]. Qed.

Lemma clsSettled_step rac st ev : clsSettled st -> clsSettled (step rac st ev).
Proof.
  intros Hs. destruct ev as [|es|es|env|]; simpl.
  - apply clsSettled_report, Hs.
  - apply clsSettled_handleEntries, Hs.
  - apply clsSettled_report, clsSettled_handleEntries, Hs.
  - split; [unfold clsValue; simpl; lra|exact I].
  - apply clsSettled_report, Hs.
Qed.

Lemma clsSettled_run rac evs : forall st, clsSettled st -> clsSettled (run rac evs st).
Proof.
  induction evs as [|ev evs IH]; intros st Hs; [exact Hs|].
  apply IH, clsSettled_step, Hs.
Qed.

(** A batch made of shifts that follow recent input leaves the state alone. *)
Lemma input_batch_ignored rac es st :
  sessionValue st <= clsValue st ->
  Forall (fun e => hadRecentInput e = true) es ->
  handleEntries rac es st = st.
Proof.
  intros Hv Hes.
  assert (Hfold : fold_left handleEntry es st = st).
  { revert st Hv. induction Hes as [|e es He _ IH]; intros st Hv; [reflexivity|].
    simpl. unfold handleEntry at 2. rewrite He. simpl. apply IH, Hv. }
  unfold handleEntries. rewrite Hfold.
  apply NumFacts.gtb_false in Hv. unfold clsValue in Hv. rewrite Hv. reflexivity.
Qed.

(** A forced report on a positive value leaves the consumer with that value
    as its latest. *)
Lemma forced_emit_last {E} th rac (b : Reporter.Bound E) :
  remembered b -> 0 < value (Reporter.metric b) ->
  exists m, list.last (Reporter.calls (Reporter.emit th rac (Some true) b)) = Some m
            /\ value m == value (Reporter.metric b).
Proof.
  intros Hrem Hpos. unfold Reporter.emit.
  apply NumFacts.gtb_true in Hpos. rewrite Hpos. simpl.
  destruct (negb _ || Reporter.isUndefined (Reporter.prevValue b)) eqn:D; simpl.
  - rewrite last_snoc. eexists. split; reflexivity.
  - apply orb_false_iff in D as [D1 D2].
    unfold remembered in Hrem.
    destruct (Reporter.prevValue b) as [p|]; [|discriminate].
    destruct Hrem as (l & m & Hc & Hm). rewrite Hc, last_snoc.
    exists m. split; [reflexivity|].
    apply negb_false_iff in D1. apply NumFacts.eqb_true in D1.
    simpl in D1. rewrite Hm. lra.
Qed.

End CLSReach.

(** X7.  Between two events of an activated [onCLS], whatever came before
    (timer, batches, page hides, cache restorations, frames), the value of
    the open session never exceeds the value of the record. *)
Theorem cls_session_never_above_record (rac : option bool) (env : Env)
    (evs : list OnCLS.Event) :
  (OnCLS.sessionValue (OnCLS.run rac evs (OnCLS.activate env))
   <= OnCLS.clsValue (OnCLS.run rac evs (OnCLS.activate env)))%Q.
Proof.
  apply (clsSettled_run rac evs (OnCLS.activate env)), clsSettled_activate.
Qed.

(** X8.  At any point of an activated [onCLS], a batch in which every layout
    shift follows recent user input changes nothing: not the session, not
    the record, and the consumer is not invoked. *)
Theorem cls_ignores_shifts_after_input (rac : option bool) (env : Env)
    (evs : list OnCLS.Event) (es : list LayoutShift) :
  Forall (fun e => hadRecentInput e = true) es ->
  OnCLS.handleEntries rac es (OnCLS.run rac evs (OnCLS.activate env))
  = OnCLS.run rac evs (OnCLS.activate env).
Proof.
  intros Hes. apply input_batch_ignored; [|exact Hes].
  apply (clsSettled_run rac evs (OnCLS.activate env)), clsSettled_activate.
Qed.

Lemma cls_ignores_shifts_after_input_witness :
  OnCLS.handleEntries (Some true)
    [mkLayoutShift (3 # 10) 700 true; mkLayoutShift (1 # 10) 800 true]
    (OnCLS.run (Some true) [OnCLS.Entries [Sample.shift (5 # 100) 0]]
       (OnCLS.activate Sample.page))
  = OnCLS.run (Some true) [OnCLS.Entries [Sample.shift (5 # 100) 0]]
      (OnCLS.activate Sample.page).
Proof.
  apply cls_ignores_shifts_after_input. repeat constructor.
Defined.

(** X9.  When an activated [onCLS] has handled a page hide and the record's
    value is positive, the record the consumer received last carries that
    value: the hide flushes the pending samples and forces a report unless
    the same value was the last one reported. *)
Theorem cls_hide_delivers_current_value (rac : option bool) (env : Env)
    (evs : list OnCLS.Event) (pending : list LayoutShift) :
  let st := OnCLS.step rac (OnCLS.run rac evs (OnCLS.activate env))
              (OnCLS.Hidden pending) in
  (0 < OnCLS.clsValue st)%Q ->
  exists m, list.last (Reporter.calls (OnCLS.bound st)) = Some m
            /\ (value m == OnCLS.clsValue st)%Q.
Proof.
  intros st Hpos. unfold st in *. clear st. simpl in *.
  set (st1 := OnCLS.handleEntries rac pending
                (OnCLS.run rac evs (OnCLS.activate env))) in *.
  assert (Hs : clsSettled st1).
  { apply clsSettled_handleEntries.
    apply (clsSettled_run rac evs (OnCLS.activate env)), clsSettled_activate. }
  destruct Hs as [_ Hrem].
  unfold OnCLS.report, OnCLS.clsValue in *. simpl in *.
  rewrite value_emit in *.
  apply forced_emit_last; assumption.
Qed.

Lemma cls_hide_delivers_current_value_witness :
  exists m,
    list.last
      (Reporter.calls
         (OnCLS.bound
            (OnCLS.step None
               (OnCLS.run None
                  [OnCLS.Entries [Sample.shift (Num.round (5 # 100)) 0]]
                  (OnCLS.activate Sample.page))
               (OnCLS.Hidden [Sample.shift (Num.round (3 # 100)) 400]))))
    = Some m
    /\ (value m == Num.round (8 # 100))%Q.
Proof.
  destruct (cls_hide_delivers_current_value None Sample.page
              [OnCLS.Entries [Sample.shift (Num.round (5 # 100)) 0]]
              [Sample.shift (Num.round (3 # 100)) 400]) as (m & Hlast & Hval).
  - vm_compute. reflexivity.
  - exists m. split; [exact Hlast|]. rewrite Hval. vm_compute. reflexivity.
Defined.

Section CLSBatches.

Import OnCLS.
Local Open Scope Q_scope.

Lemma session_le_record rac es st :
  sessionValue (handleEntries rac es st) <= clsValue (handleEntries rac es st).
Proof.
  destruct (session_handleEntries rac es st) as [-> _].
  rewrite clsValue_handleEntries.
  destruct (Num.gtb _ _) eqn:G; [lra|].
  apply NumFacts.gtb_false in G. exact G.
Qed.

Lemma deliver_take_snoc rac bs b st k :
  deliver rac (take k (bs ++ [b])) st
  = if (k <=? length bs)%nat then deliver rac (take k bs) st
    else deliver rac (bs ++ [b]) st.
Proof.
  destruct (k <=? length bs)%nat eqn:K.
  - apply Nat.leb_le in K. rewrite take_app_le by exact K. reflexivity.
  - apply Nat.leb_gt in K. rewrite take_ge; [reflexivity|].
    rewrite length_app. simpl. lia.
Qed.

End CLSBatches.

(** X10.  After any number of batches, the record's value is the largest of
    its starting value and the values the open session had at the end of each
    batch: it is at least each of them, and it is one of them.  What the
    session was worth in the middle of a batch does not enter. *)
Theorem cls_value_is_largest_batch_end (rac : option bool)
    (batches : list (list LayoutShift)) (st : OnCLS.State) :
  (OnCLS.sessionValue st <= OnCLS.clsValue st)%Q ->
  (forall k, (OnCLS.sessionValue (OnCLS.deliver rac (take k batches) st)
              <= OnCLS.clsValue (OnCLS.deliver rac batches st))%Q)
  /\ (OnCLS.clsValue st <= OnCLS.clsValue (OnCLS.deliver rac batches st))%Q
  /\ (OnCLS.clsValue (OnCLS.deliver rac batches st) = OnCLS.clsValue st
      \/ exists k, OnCLS.clsValue (OnCLS.deliver rac batches st)
                   = OnCLS.sessionValue (OnCLS.deliver rac (take k batches) st)).
Proof.
  intros Hst.
  induction batches as [|b bs IH] using rev_ind.
  - split; [|split].
    + intros k. rewrite take_nil. exact Hst.
    + simpl. lra.
    + left. reflexivity.
  - destruct IH as (IHle & IHmono & IHeq).
    rewrite deliver_snoc.
    set (mid := OnCLS.deliver rac bs st) in *.
    assert (Hmono := clsValue_monotone rac b mid).
    split; [|split].
    + intros k. rewrite deliver_take_snoc.
      destruct (k <=? length bs)%nat.
      * specialize (IHle k). lra.
      * rewrite deliver_snoc. apply session_le_record.
    + lra.
    + rewrite clsValue_handleEntries.
      destruct (Num.gtb _ _).
      * right. exists (S (length bs)). rewrite deliver_take_snoc.
        assert (K : (S (length bs) <=? length bs)%nat = false)
          by (apply Nat.leb_gt; lia).
        rewrite K, deliver_snoc. symmetry.
        apply (proj1 (session_handleEntries rac b mid)).
      * destruct IHeq as [Heq|[k Hk]]; [left; exact Heq|].
        right. exists (Nat.min k (length bs)). rewrite deliver_take_snoc.
        assert (K : (Nat.min k (length bs) <=? length bs)%nat = true)
          by (apply Nat.leb_le; lia).
        rewrite K, Hk.
        destruct (Nat.le_gt_cases k (length bs)) as [Hle|Hgt].
        -- rewrite Nat.min_l by exact Hle. reflexivity.
        -- rewrite Nat.min_r by lia. rewrite !take_ge by lia. reflexivity.
Qed.

Lemma cls_value_is_largest_batch_end_witness :
  (OnCLS.sessionValue
     (OnCLS.deliver None
        (take 1 [[Sample.shift (1 # 2) 0]; [Sample.shift (1 # 10) 2000]])
        (OnCLS.activate Sample.page))
   <= OnCLS.clsValue
        (OnCLS.deliver None
           [[Sample.shift (1 # 2) 0]; [Sample.shift (1 # 10) 2000]]
           (OnCLS.activate Sample.page)))%Q.
Proof.
  apply (cls_value_is_largest_batch_end None
           [[Sample.shift (1 # 2) 0]; [Sample.shift (1 # 10) 2000]]
           (OnCLS.activate Sample.page)).
  vm_compute. discriminate.
Defined.

(** ** The interaction aggregator over an epoch *)

Section EpochFacts.

Import Interactions Epoch.
Local Open Scope Q_scope.

Lemma process_unfold entry st :
  processInteractionEntry entry st
  = if qualifies entry then
      if admitted entry st then truncate (sortList (mergeOrCreate entry st)) else st
    else st.
Proof.
  unfold processInteractionEntry, qualifies, admitted.
  destruct (truthyId _ || _); reflexivity.
Qed.

Lemma synced_ids_distinct st :
  synced st -> NoDup (idOf (heap st) <$> longestInteractionList st).
Proof.
  intros (Hnd & Hl & _).
  apply NoDup_fmap_2_strong; [|exact Hnd].
  intros x y Hx Hy. unfold idOf.
  destruct (Hl x Hx) as (i & Hi & Hmi). destruct (Hl y Hy) as (j & Hj & Hmj).
  rewrite Hi, Hj. intros Heq. rewrite Heq in Hmi. congruence.
Qed.

Lemma bounded_run cs : forall st, bounded st -> bounded (run cs st).
Proof.
  induction cs as [|c cs IH]; intros st Hs; [exact Hs|].
  apply IH. destruct c; simpl; [apply bounded_process, Hs|apply bounded_reset].
Qed.

Lemma bounded_initial : bounded initial.
Proof. split; [simpl; lia|constructor]. Qed.

Lemma Num_max_ge_l a d : a <= Num.max a d.
Proof.
  unfold Num.max. destruct (Num.gtb a d) eqn:G; [lra|].
  apply NumFacts.gtb_false in G. exact G.
Qed.

Lemma Num_max_ge_r a d : d <= Num.max a d.
Proof.
  unfold Num.max. destruct (Num.gtb a d) eqn:G; [|lra].
  apply NumFacts.gtb_true in G. lra.
Qed.

Lemma Num_max_cases a d : Num.max a d = a \/ Num.max a d = d.
Proof. unfold Num.max. destruct (Num.gtb a d); auto. Qed.

Lemma isLongest_proper h m m' l : m == m' -> isLongest h m l -> isLongest h m' l.
Proof.
  intros Hm [Hf He]. split.
  - eapply List.Forall_impl; [|exact Hf]. simpl. intros r Hr. lra.
  - eapply List.Exists_impl; [|exact He]. simpl. intros r Hr. lra.
Qed.

Lemma isLongest_perm h m l l' : l ≡ₚ l' -> isLongest h m l -> isLongest h m l'.
Proof.
  intros Hp [Hf He]. split.
  - rewrite <- Hp. exact Hf.
  - rewrite <- Hp. exact He.
Qed.

(** In a list sorted by descending latency, the longest comes first. *)
Lemma isLongest_head h m l :
  StronglySorted (before h) l -> isLongest h m l ->
  exists r tl, l = r :: tl /\ latencyOf h r == m.
Proof.
  intros Hs [Hf He]. destruct l as [|r tl].
  - inversion He.
  - exists r, tl. split; [reflexivity|].
    inversion Hf as [|? ? Hr _]; subst.
    inversion Hs as [|? ? _ Hall]; subst.
    apply Exists_cons in He as [He|He]; [exact He|].
    apply Exists_exists in He as (x & Hx & Hxm).
    rewrite Forall_forall in Hall. specialize (Hall x Hx). unfold before in Hall.
    lra.
Qed.

Lemma isLongest_take h m l n :
  StronglySorted (before h) l -> isLongest h m l -> (0 < n)%nat ->
  isLongest h m (take n l).
Proof.
  intros Hs Hl Hn.
  destruct (isLongest_head h m l Hs Hl) as (r & tl & -> & Hr).
  destruct n as [|n]; [lia|]. simpl. destruct Hl as [Hf _]. split.
  - inversion Hf; subst. constructor; [assumption|]. apply Forall_take. assumption.
  - apply Exists_cons. left. exact Hr.
Qed.

Lemma latencyOf_insert_ne h r r' i :
  r <> r' -> latencyOf (<[r := i]> h) r' = latencyOf h r'.
Proof. intros Hne. unfold latencyOf. rewrite lookup_insert_ne by exact Hne. reflexivity. Qed.

Lemma latencyOf_insert_eq h r i : latencyOf (<[r := i]> h) r = latency i.
Proof. unfold latencyOf. rewrite lookup_insert_eq. reflexivity. Qed.

(** Raising the latency of one listed interaction to [d]. *)
Lemma isLongest_raise h l r i i' a d :
  r ∈ l -> h !! r = Some i -> latency i' = d -> latency i < d ->
  isLongest h a l -> isLongest (<[r := i']> h) (Num.max a d) l.
Proof.
  intros Hin Hr Hd Hlt [Hf He]. split.
  - apply Forall_forall. intros x Hx. rewrite Forall_forall in Hf.
    destruct (decide (r = x)) as [<-|Hne].
    + rewrite latencyOf_insert_eq, Hd. apply Num_max_ge_r.
    + rewrite latencyOf_insert_ne by exact Hne.
      specialize (Hf x Hx). pose proof (Num_max_ge_l a d). lra.
  - unfold Num.max. destruct (Num.gtb a d) eqn:G.
    + apply NumFacts.gtb_true in G.
      apply Exists_exists in He as (x & Hx & Hxa).
      apply Exists_exists. exists x. split; [exact Hx|].
      destruct (decide (r = x)) as [<-|Hne].
      * exfalso. unfold latencyOf in Hxa. rewrite Hr in Hxa. lra.
      * rewrite latencyOf_insert_ne by exact Hne. exact Hxa.
    + apply Exists_exists. exists r. split; [exact Hin|].
      rewrite latencyOf_insert_eq, Hd. reflexivity.
Qed.

(** Rewriting a listed interaction without touching its latency. *)
Lemma isLongest_keep h l r i i' a :
  h !! r = Some i -> latency i' = latency i ->
  isLongest h a l -> isLongest (<[r := i']> h) a l.
Proof.
  intros Hr Hsame [Hf He].
  assert (Hlat : forall x, latencyOf (<[r := i']> h) x = latencyOf h x).
  { intros x. destruct (decide (r = x)) as [<-|Hne].
    - rewrite latencyOf_insert_eq. unfold latencyOf. rewrite Hr. exact Hsame.
    - apply latencyOf_insert_ne, Hne. }
  split.
  - eapply List.Forall_impl; [|exact Hf]. simpl. intros x Hx. rewrite Hlat. exact Hx.
  - eapply List.Exists_impl; [|exact He]. simpl. intros x Hx. rewrite Hlat. exact Hx.
Qed.

(** A duration that does not beat a listed latency does not move the
    maximum. *)
Lemma isLongest_absorb h l a d r :
  r ∈ l -> d <= latencyOf h r -> isLongest h a l -> isLongest h (Num.max a d) l.
Proof.
  intros Hin Hd Hl. apply (isLongest_proper h a); [|exact Hl].
  destruct Hl as [Hf _]. rewrite Forall_forall in Hf. specialize (Hf r Hin).
  unfold Num.max. destruct (Num.gtb a d) eqn:G; [reflexivity|].
  apply NumFacts.gtb_false in G. lra.
Qed.

End EpochFacts.

Section EpochSteps.

Import Interactions Epoch.
Local Open Scope Q_scope.

(** Step 6 on an admitted entry: the maximum takes the new duration in. *)
Lemma longest_after_merge entry st acc :
  tracks st acc -> admitted entry st = true ->
  isLongest (heap (mergeOrCreate entry st))
            (match acc with Some a => Num.max a (duration entry)
                          | None => duration entry end)
            (longestInteractionList (mergeOrCreate entry st)).
Proof.
  intros ((Hnd & Hl & Hm) & _ & Hacc) _. unfold mergeOrCreate.
  destruct (longestInteractionMap st !! interactionId entry) as [r|] eqn:Hk.
  - destruct (Hm _ _ Hk) as (Hin & i & Hi & Hid). rewrite Hi.
    destruct acc as [a|]; [|rewrite Hacc in Hin; inversion Hin].
    destruct (Num.gtb (duration entry) (latency i)) eqn:G; simpl.
    + apply NumFacts.gtb_true in G.
      apply (isLongest_raise _ _ r i); auto.
    + apply NumFacts.gtb_false in G.
      destruct (_ && _); simpl.
      * apply (isLongest_absorb _ _ _ _ r); [exact Hin| |].
        -- rewrite latencyOf_insert_eq. simpl. exact G.
        -- apply (isLongest_keep _ _ r i); auto.
      * apply (isLongest_absorb _ _ _ _ r); [exact Hin| |exact Hacc].
        unfold latencyOf. rewrite Hi. exact G.
  - simpl. set (r := fresh (dom (heap st))).
    assert (Hfresh : heap st !! r = None) by (apply not_elem_of_dom, is_fresh).
    assert (Hne : forall x, x ∈ longestInteractionList st -> r <> x).
    { intros x Hx ->. destruct (Hl x Hx) as (i & Hi & _). congruence. }
    destruct acc as [a|].
    + destruct Hacc as [Hf He]. split.
      * apply Forall_app. split.
        -- apply Forall_forall. intros x Hx. rewrite Forall_forall in Hf.
           rewrite latencyOf_insert_ne by (apply Hne, Hx).
           specialize (Hf x Hx). pose proof (Num_max_ge_l a (duration entry)). lra.
        -- constructor; [|constructor].
           rewrite latencyOf_insert_eq. simpl. apply Num_max_ge_r.
      * apply Exists_app. unfold Num.max.
        destruct (Num.gtb a (duration entry)).
        -- left. apply Exists_exists in He as (x & Hx & Hxa).
           apply Exists_exists. exists x. split; [exact Hx|].
           rewrite latencyOf_insert_ne by (apply Hne, Hx). exact Hxa.
        -- right. apply Exists_cons. left.
           rewrite latencyOf_insert_eq. reflexivity.
    + rewrite Hacc. simpl. split.
      * constructor; [|constructor]. rewrite latencyOf_insert_eq. simpl. lra.
      * apply Exists_cons. left. rewrite latencyOf_insert_eq. reflexivity.
Qed.

(** An entry that is turned away is not longer than the shortest retained
    interaction. *)
Lemma turned_away entry st :
  admitted entry st = false ->
  exists r, r ∈ longestInteractionList st
            /\ duration entry <= latencyOf (heap st) r.
Proof.
  unfold admitted. intros H.
  apply orb_false_iff in H as [H Hd]. apply orb_false_iff in H as [_ Hlen].
  apply Nat.ltb_ge in Hlen. unfold minLongestLatency in Hd.
  destruct (list.last (longestInteractionList st)) as [z|] eqn:Hz.
  - exists z. split; [apply last_Some_elem_of, Hz|].
    apply NumFacts.gtb_false. exact Hd.
  - apply last_None in Hz. rewrite Hz in Hlen. simpl in Hlen.
    unfold MAX_INTERACTIONS_TO_CONSIDER in Hlen. lia.
Qed.

Lemma tracks_process entry st acc :
  tracks st acc -> tracks (processInteractionEntry entry st) (seen acc entry).
Proof.
  intros Ht. rewrite process_unfold. unfold seen.
  destruct (qualifies entry); [|exact Ht].
  destruct (admitted entry st) eqn:Ha.
  - assert (Hlong := longest_after_merge entry st acc Ht Ha).
    destruct Ht as (Hs & _ & _).
    set (st1 := mergeOrCreate entry st) in *.
    assert (Hs1 : synced st1) by apply synced_mergeOrCreate, Hs.
    assert (Hsort : StronglySorted (before (heap st1))
                      (sortDesc (heap st1) (longestInteractionList st1)))
      by apply sortDesc_sorted.
    assert (Hlong2 : isLongest (heap st1)
                       (match acc with Some a => Num.max a (duration entry)
                                     | None => duration entry end)
                       (sortDesc (heap st1) (longestInteractionList st1))).
    { eapply isLongest_perm; [|exact Hlong]. symmetry. apply sortDesc_perm. }
    split; [apply synced_truncate, synced_sortList, Hs1|].
    unfold truncate, sortList. simpl.
    destruct (_ <? _)%nat; simpl.
    + split; [apply sorted_take, Hsort|].
      apply isLongest_take; [exact Hsort|exact Hlong2|].
      unfold MAX_INTERACTIONS_TO_CONSIDER. lia.
    + split; assumption.
  - destruct (turned_away entry st Ha) as (r & Hr & Hd).
    destruct Ht as (Hs & Hsort & Hacc).
    split; [exact Hs|]. split; [exact Hsort|].
    destruct acc as [a|].
    + apply (isLongest_absorb _ _ _ _ r); assumption.
    + rewrite Hacc in Hr. inversion Hr.
Qed.

Lemma tracks_run es : forall st acc,
  tracks st acc -> tracks (run (map Process es) st) (fold_left seen es acc).
Proof.
  induction es as [|e es IH]; intros st acc Ht; [exact Ht|].
  simpl. apply IH, tracks_process, Ht.
Qed.

Lemma tracks_started history n : tracks (Epoch.started history n) None.
Proof.
  split; [apply synced_reset|]. split; [constructor|reflexivity].
Qed.

Lemma tracks_longest st acc :
  tracks st acc ->
  match acc, longestLatency st with
  | Some d, Some l => l == d
  | None, None => True
  | _, _ => False
  end.
Proof.
  intros (_ & Hsort & Hacc). unfold longestLatency. destruct acc as [a|].
  - destruct (isLongest_head _ _ _ Hsort Hacc) as (r & tl & -> & Hr).
    simpl. exact Hr.
  - rewrite Hacc. exact I.
Qed.

Lemma sorted_app_before {A} (R : A -> A -> Prop) l1 l2 :
  StronglySorted R (l1 ++ l2) -> forall x y, x ∈ l1 -> y ∈ l2 -> R x y.
Proof.
  induction l1 as [|a l1 IH]; intros Hs x y Hx Hy; [inversion Hx|].
  simpl in Hs. inversion Hs as [|? ? Hs' Hall]; subst.
  apply elem_of_cons in Hx as [->|Hx].
  - rewrite Forall_forall in Hall. apply Hall. apply elem_of_app. right. exact Hy.
  - apply IH; assumption.
Qed.

End EpochSteps.

(** X11.  After any sequence of [processInteractionEntry] and
    [resetInteractions] calls, no two retained interactions have the same
    [id]: the samples of one interaction are always merged into one object. *)
Theorem retained_ids_distinct (cs : list Interactions.Call) :
  let st := Interactions.run cs Interactions.initial in
  NoDup (Interactions.idOf (Interactions.heap st)
           <$> Interactions.longestInteractionList st).
Proof.
  intros st. apply synced_ids_distinct, synced_run, synced_initial.
Qed.

(** X12.  Within a navigation epoch (any history, a reset, then the entries
    [es]), the first interaction of the list has the longest duration among
    all entries of the epoch that passed the filter, however many
    interactions were turned away or cut off in between; the list is empty
    exactly when no entry passed the filter. *)
Theorem longest_retained_is_longest_seen (history : list Interactions.Call)
    (interactionCount : Z) (es : list PerformanceEventTiming) :
  match Epoch.longestDuration es,
        Epoch.longestLatency
          (Interactions.run (map Interactions.Process es)
             (Epoch.started history interactionCount)) with
  | Some d, Some l => (l == d)%Q
  | None, None => True
  | _, _ => False
  end.
Proof.
  apply tracks_longest, tracks_run, tracks_started.
Qed.

(** With a count below fifty the index is [0], or [-1] on an empty list. *)
Lemma estimate_small_count (st : Interactions.State) (interactionCount : Z) :
  (0 <= interactionCount - Interactions.prevInteractionCount st < 50)%Z ->
  Interactions.estimateP98LongestInteraction interactionCount st
  = list.head (Interactions.longestInteractionList st).
Proof.
  intros Hcount.
  unfold Interactions.estimateP98LongestInteraction,
    Interactions.candidateInteractionIndex,
    Interactions.getInteractionCountForNavigation, Interactions.arrayGet.
  rewrite Z.div_small by exact Hcount.
  destruct (Interactions.longestInteractionList st) as [|x tl]; [reflexivity|].
  assert (Hmin : Z.min (Z.of_nat (length (x :: tl)) - 1) 0 = 0%Z)
    by (simpl length; lia).
  rewrite Hmin. reflexivity.
Qed.

(** X13.  While fewer than fifty interactions have been counted since the
    epoch started, the p98 estimate is the first interaction of the list, and
    no retained interaction has a longer latency than it; with nothing
    retained the estimate is [undefined]. *)
Theorem estimate_below_fifty_is_longest (cs : list Interactions.Call)
    (interactionCount : Z) :
  let st := Interactions.run cs Interactions.initial in
  (0 <= interactionCount - Interactions.prevInteractionCount st < 50)%Z ->
  Interactions.estimateP98LongestInteraction interactionCount st
  = list.head (Interactions.longestInteractionList st)
  /\ forall r r',
       Interactions.estimateP98LongestInteraction interactionCount st = Some r ->
       r' ∈ Interactions.longestInteractionList st ->
       (Interactions.latencyOf (Interactions.heap st) r'
        <= Interactions.latencyOf (Interactions.heap st) r)%Q.
Proof.
  intros st Hcount.
  assert (Hest := estimate_small_count st interactionCount Hcount).
  split; [exact Hest|].
  intros r r' Hr Hr'. rewrite Hest in Hr.
  assert (Hb : Interactions.bounded st) by apply bounded_run, bounded_initial.
  destruct Hb as [_ Hdesc].
  unfold Interactions.descending, Interactions.latencies in Hdesc.
  destruct (Interactions.longestInteractionList st) as [|x tl]; [discriminate|].
  simpl in Hr. injection Hr as ->.
  apply elem_of_cons in Hr' as [->|Hr']; [apply Qle_refl|].
  simpl in Hdesc. inversion Hdesc as [|? ? _ Hall]; subst.
  rewrite Forall_forall in Hall. apply Hall.
  apply list_elem_of_fmap. exists r'. split; [reflexivity|exact Hr'].
Qed.

Lemma estimate_below_fifty_is_longest_witness :
  Interactions.estimateP98LongestInteraction 3 Trace.three
  = list.head (Interactions.longestInteractionList Trace.three).
Proof.
  apply (estimate_below_fifty_is_longest
           [Interactions.Process (Trace.click 7 80 10);
            Interactions.Process (Trace.click 14 200 30);
            Interactions.Process (Trace.click 21 120 50)] 3).
  vm_compute. split; discriminate || reflexivity.
Defined.

Section Admission.

Import Interactions Epoch.
Local Open Scope Q_scope.

(** After step 6 the entry's interaction is filed under the entry's id, and
    its latency is at least the entry's duration. *)
Lemma filed_after_merge entry st :
  synced st ->
  exists r i,
    longestInteractionMap (mergeOrCreate entry st) !! interactionId entry = Some r
    /\ r ∈ longestInteractionList (mergeOrCreate entry st)
    /\ heap (mergeOrCreate entry st) !! r = Some i
    /\ id i = interactionId entry
    /\ duration entry <= latency i.
Proof.
  intros (_ & _ & Hm). unfold mergeOrCreate.
  destruct (longestInteractionMap st !! interactionId entry) as [r|] eqn:Hk.
  - destruct (Hm _ _ Hk) as (Hin & i & Hi & Hid). rewrite Hi.
    destruct (Num.gtb (duration entry) (latency i)) eqn:G.
    + exists r, (mkInteraction (id i) (duration entry) [entry]). simpl.
      rewrite lookup_insert_eq.
      split; [exact Hk|]. split; [exact Hin|]. split; [reflexivity|].
      split; [exact Hid|lra].
    + apply NumFacts.gtb_false in G. destruct (_ && _).
      * exists r, (mkInteraction (id i) (latency i) (entries i ++ [entry])). simpl.
        rewrite lookup_insert_eq.
        split; [exact Hk|]. split; [exact Hin|]. split; [reflexivity|].
        split; [exact Hid|exact G].
      * exists r, i.
        split; [exact Hk|]. split; [exact Hin|]. split; [exact Hi|].
        split; [exact Hid|exact G].
  - exists (fresh (dom (heap st))),
      (mkInteraction (interactionId entry) (duration entry) [entry]). simpl.
    rewrite !lookup_insert_eq.
    split; [reflexivity|]. split.
    { apply elem_of_app. right. apply list_elem_of_singleton. reflexivity. }
    split; [reflexivity|]. split; [reflexivity|lra].
Qed.

(** The list grows in step 6 only by a new object at its end. *)
Lemma merge_length entry st :
  length (longestInteractionList (mergeOrCreate entry st))
  = length (longestInteractionList st)
  \/ (longestInteractionMap st !! interactionId entry = None
      /\ heap (mergeOrCreate entry st)
         = <[fresh (dom (heap st)) :=
               mkInteraction (interactionId entry) (duration entry) [entry]]> (heap st)
      /\ longestInteractionList (mergeOrCreate entry st)
         = longestInteractionList st ++ [fresh (dom (heap st))]).
Proof.
  unfold mergeOrCreate.
  destruct (longestInteractionMap st !! interactionId entry) as [r|].
  - left. destruct (heap st !! r) as [i|]; [|reflexivity].
    destruct (Num.gtb _ _); [reflexivity|]. destruct (_ && _); reflexivity.
  - right. repeat split.
Qed.

Lemma admitted_survives entry st :
  synced st ->
  (length (longestInteractionList st) <= MAX_INTERACTIONS_TO_CONSIDER)%nat ->
  admitted entry st = true ->
  forall r,
    longestInteractionMap (mergeOrCreate entry st) !! interactionId entry = Some r ->
    r ∈ longestInteractionList (truncate (sortList (mergeOrCreate entry st))).
Proof.
  intros Hs Hlen Hadm r Hr.
  destruct (filed_after_merge entry st Hs) as (r0 & i & Hr0 & Hin & Hi & Hid & Hd).
  rewrite Hr in Hr0. injection Hr0 as <-.
  set (st1 := mergeOrCreate entry st) in *.
  assert (Hp := sortDesc_perm (heap st1) (longestInteractionList st1)).
  assert (Hin2 : r ∈ sortDesc (heap st1) (longestInteractionList st1))
    by (rewrite Hp; exact Hin).
  unfold truncate, sortList. simpl.
  destruct (_ <? _)%nat eqn:L; simpl; [|exact Hin2].
  apply Nat.ltb_lt in L. rewrite Hp in L.
  destruct (merge_length entry st) as [Hsame|(Hnew & Hheap & Hlist)].
  { fold st1 in Hsame. lia. }
  fold st1 in Hheap, Hlist.
  set (n := fresh (dom (heap st))) in *.
  assert (Hfresh : heap st !! n = None) by (apply not_elem_of_dom, is_fresh).
  assert (Hrn : r = n).
  { unfold st1, mergeOrCreate in Hr. rewrite Hnew in Hr. simpl in Hr.
    rewrite lookup_insert_eq in Hr. injection Hr as <-. reflexivity. }
  subst r.
  assert (Hfull : length (longestInteractionList st) = MAX_INTERACTIONS_TO_CONSIDER).
  { rewrite Hlist, length_app in L. simpl in L. lia. }
  (* the shortest interaction retained before the call *)
  unfold admitted in Hadm. rewrite Hnew in Hadm.
  assert (Hnb : bool_decide (is_Some (None : option positive)) = false).
  { apply bool_decide_eq_false. intros [x Hx]. discriminate. }
  rewrite Hnb in Hadm. simpl in Hadm.
  assert (Hnl : (length (longestInteractionList st) <? MAX_INTERACTIONS_TO_CONSIDER)%nat
                = false) by (apply Nat.ltb_ge; lia).
  rewrite Hnl in Hadm. simpl in Hadm. apply NumFacts.gtb_true in Hadm.
  unfold minLongestLatency in Hadm.
  destruct (list.last (longestInteractionList st)) as [z|] eqn:Hz.
  2:{ apply last_None in Hz. rewrite Hz in Hfull. discriminate. }
  assert (Hzin : z ∈ longestInteractionList st) by apply last_Some_elem_of, Hz.
  assert (Hzn : n <> z).
  { intros <-. destruct Hs as (_ & Hl & _).
    destruct (Hl n Hzin) as (j & Hj & _). congruence. }
  (* where the two end up after the sort *)
  set (sorted := sortDesc (heap st1) (longestInteractionList st1)) in *.
  assert (Hsort : StronglySorted (before (heap st1)) sorted) by apply sortDesc_sorted.
  assert (Hlen11 : length sorted = S MAX_INTERACTIONS_TO_CONSIDER).
  { rewrite Hp, Hlist, length_app. simpl. lia. }
  assert (Hsplit := take_drop MAX_INTERACTIONS_TO_CONSIDER sorted).
  assert (Hin3 : n ∈ take MAX_INTERACTIONS_TO_CONSIDER sorted
                     ++ drop MAX_INTERACTIONS_TO_CONSIDER sorted)
    by (rewrite Hsplit; exact Hin2).
  apply elem_of_app in Hin3 as [Hin3|Hin3]; [exact Hin3|].
  exfalso.
  assert (Hdrop : drop MAX_INTERACTIONS_TO_CONSIDER sorted = [n]).
  { assert (Hl1 : length (drop MAX_INTERACTIONS_TO_CONSIDER sorted) = 1%nat)
      by (rewrite length_drop; lia).
    destruct (drop MAX_INTERACTIONS_TO_CONSIDER sorted) as [|x [|y tl]];
      try discriminate.
    apply list_elem_of_singleton in Hin3. congruence. }
  rewrite Hdrop in Hsplit.
  assert (Hzs : z ∈ take MAX_INTERACTIONS_TO_CONSIDER sorted ++ [n]).
  { rewrite Hsplit, Hp, Hlist. apply elem_of_app. left. exact Hzin. }
  apply elem_of_app in Hzs as [Hzs|Hzs].
  2:{ apply list_elem_of_singleton in Hzs. congruence. }
  assert (Hsort' : StronglySorted (before (heap st1))
                     (take MAX_INTERACTIONS_TO_CONSIDER sorted ++ [n]))
    by (rewrite Hsplit; exact Hsort).
  assert (Hbefore : before (heap st1) z n).
  { apply (sorted_app_before _ _ _ Hsort'); [exact Hzs|].
    apply list_elem_of_singleton. reflexivity. }
  unfold before in Hbefore.
  rewrite Hheap, latencyOf_insert_eq, latencyOf_insert_ne in Hbefore by exact Hzn.
  simpl in Hbefore. lra.
Qed.

End Admission.

(** X14.  At any point of the aggregator's life, an entry that passes the
    filter and the admission test can be found again right after the call:
    the map has an entry under its [interactionId], the interaction it points
    to is in the list, carries that id, and has a latency of at least the
    entry's duration.  In particular a new interaction that beats the
    shortest of ten retained ones is never the one cut off. *)
Theorem admitted_entry_is_found (cs : list Interactions.Call)
    (entry : PerformanceEventTiming) :
  let st := Interactions.run cs Interactions.initial in
  let st' := Interactions.processInteractionEntry entry st in
  Epoch.qualifies entry = true -> Epoch.admitted entry st = true ->
  exists r i,
    Interactions.longestInteractionMap st' !! interactionId entry = Some r
    /\ r ∈ Interactions.longestInteractionList st'
    /\ Interactions.heap st' !! r = Some i
    /\ Interactions.id i = interactionId entry
    /\ (duration entry <= Interactions.latency i)%Q.
Proof.
  intros st st' Hq Ha. unfold st'. rewrite process_unfold, Hq, Ha.
  assert (Hs : Interactions.synced st) by apply synced_run, synced_initial.
  assert (Hb : Interactions.bounded st) by apply bounded_run, bounded_initial.
  destruct Hb as [Hlen _].
  destruct (filed_after_merge entry st Hs) as (r & i & Hr & Hin & Hi & Hid & Hd).
  assert (Hkept := admitted_survives entry st Hs Hlen Ha r Hr).
  assert (Hs3 : Interactions.synced
                  (Interactions.truncate
                     (Interactions.sortList (Interactions.mergeOrCreate entry st))))
    by apply synced_truncate, synced_sortList, synced_mergeOrCreate, Hs.
  destruct Hs3 as (_ & Hl3 & _).
  destruct (Hl3 r Hkept) as (i' & Hi' & Hm').
  assert (Hheap : Interactions.heap
                    (Interactions.truncate
                       (Interactions.sortList (Interactions.mergeOrCreate entry st)))
                  = Interactions.heap (Interactions.mergeOrCreate entry st)).
  { unfold Interactions.truncate, Interactions.sortList. simpl.
    destruct (_ <? _)%nat; reflexivity. }
  rewrite Hheap in Hi'. assert (i' = i) by congruence. subst i'.
  exists r, i. rewrite Hheap. rewrite Hid in Hm'.
  repeat split; assumption.
Qed.

Lemma admitted_entry_is_found_witness :
  exists r i,
    Interactions.longestInteractionMap
      (Interactions.processInteractionEntry (Trace.click 99 35 0) Trace.twelve)
      !! Some 99%Z = Some r
    /\ Interactions.heap
         (Interactions.processInteractionEntry (Trace.click 99 35 0) Trace.twelve)
         !! r = Some i
    /\ (35 <= Interactions.latency i)%Q.
Proof.
  destruct (admitted_entry_is_found
              (map (fun n => Interactions.Process
                       (Trace.click (Z.of_nat n) (inject_Z (10 * Z.of_nat n)) 0))
                   (seq 1 12)
               ++ [Interactions.Process (Trace.click 5 300 0)])
              (Trace.click 99 35 0))
    as (r & i & Hm & _ & Hh & _ & Hd).
  - reflexivity.
  - vm_compute. reflexivity.
  - exists r, i. split; [exact Hm|]. split; [exact Hh|exact Hd].
Defined.

(** ** [onINP]: the record and the estimate *)

Section INPFacts.

Import Interactions Epoch.
Local Open Scope Q_scope.

Lemma run_process_fold es : forall st,
  run (map Process es) st
  = fold_left (fun s e => processInteractionEntry e s) es st.
Proof.
  induction es as [|e es IH]; intros st; [reflexivity|]. simpl. apply IH.
Qed.

Lemma idleBatch_interactions rac batch n st :
  OnINP.interactions (OnINP.idleBatch rac batch n st)
  = run (map Process batch) (OnINP.interactions st).
Proof.
  rewrite run_process_fold. unfold OnINP.idleBatch.
  destruct (estimateP98LongestInteraction _ _) as [r|]; [|reflexivity].
  destruct (heap _ !! r); [|reflexivity].
  destruct (negb _); reflexivity.
Qed.

Lemma idleBatches_interactions rac batches : forall st,
  OnINP.interactions (OnINP.idleBatches rac batches st)
  = run (map Process (concat (map fst batches))) (OnINP.interactions st).
Proof.
  induction batches as [|b bs IH]; intros st; [reflexivity|].
  unfold OnINP.idleBatches in *. simpl. rewrite IH, idleBatch_interactions.
  rewrite map_app. unfold run. rewrite fold_left_app. reflexivity.
Qed.

(** After a batch the record's value is the latency of the estimate. *)
Lemma idleBatch_value rac batch n st r :
  synced (OnINP.interactions st) ->
  estimateP98LongestInteraction n (OnINP.interactions (OnINP.idleBatch rac batch n st))
  = Some r ->
  value (Reporter.metric (OnINP.bound (OnINP.idleBatch rac batch n st)))
  == latencyOf (heap (OnINP.interactions (OnINP.idleBatch rac batch n st))) r.
Proof.
  intros Hs. rewrite idleBatch_interactions.
  assert (Hs' : synced (run (map Process batch) (OnINP.interactions st)))
    by apply synced_run, Hs.
  intros Hr. unfold OnINP.idleBatch.
  rewrite run_process_fold in Hr, Hs' |- *.
  set (ints := fold_left (fun s e => processInteractionEntry e s) batch
                 (OnINP.interactions st)) in *.
  rewrite Hr.
  assert (Hin : r ∈ longestInteractionList ints).
  { unfold estimateP98LongestInteraction, arrayGet in Hr.
    destruct (_ <? _)%Z; [discriminate|].
    apply list_elem_of_lookup. eexists. exact Hr. }
  destruct Hs' as (_ & Hl & _). destruct (Hl r Hin) as (inp & Hinp & _).
  unfold latencyOf. rewrite Hinp.
  destruct (negb _) eqn:D; simpl.
  - rewrite value_emit. reflexivity.
  - apply negb_false_iff in D. apply NumFacts.eqb_true in D. symmetry. exact D.
Qed.

Lemma process_keeps_count entry st :
  prevInteractionCount (processInteractionEntry entry st) = prevInteractionCount st.
Proof.
  rewrite process_unfold. destruct (qualifies entry); [|reflexivity].
  destruct (admitted entry st); [|reflexivity].
  unfold truncate, sortList, mergeOrCreate. simpl.
  destruct (longestInteractionMap st !! interactionId entry) as [r|]; simpl.
  - destruct (heap st !! r) as [i|]; simpl.
    + destruct (Num.gtb _ _); simpl.
      * destruct (_ <? _)%nat; reflexivity.
      * destruct (_ && _); simpl; destruct (_ <? _)%nat; reflexivity.
    + destruct (_ <? _)%nat; reflexivity.
  - destruct (_ <? _)%nat; reflexivity.
Qed.

Lemma run_process_keeps_count es : forall st,
  prevInteractionCount (run (map Process es) st) = prevInteractionCount st.
Proof.
  induction es as [|e es IH]; intros st; [reflexivity|].
  simpl. rewrite IH. apply process_keeps_count.
Qed.

End INPFacts.

(** X15.  Whenever an idle batch of [onINP] ends with an estimate, the
    record's value is the latency of that estimate, whatever the record held
    before and whether or not the consumer was told. *)
Theorem inp_value_follows_estimate (rac : option bool) (cs : list Interactions.Call)
    (b : Reporter.Bound unit) (batch : list PerformanceEventTiming)
    (interactionCount : Z) (r : positive) :
  let st' := OnINP.idleBatch rac batch interactionCount
               (OnINP.mkState b (Interactions.run cs Interactions.initial)) in
  Interactions.estimateP98LongestInteraction interactionCount (OnINP.interactions st')
  = Some r ->
  (value (Reporter.metric (OnINP.bound st'))
   == Interactions.latencyOf (Interactions.heap (OnINP.interactions st')) r)%Q.
Proof.
  intros st'. apply idleBatch_value. simpl. apply synced_run, synced_initial.
Qed.

(** X16.  Within a navigation epoch in which fewer than fifty interactions
    are counted, after any non-empty series of idle batches the INP record's
    value is the longest duration among all entries of the epoch that passed
    the filter. *)
Theorem inp_below_fifty_is_longest_duration (rac : option bool)
    (history : list Interactions.Call) (epochCount : Z)
    (b : Reporter.Bound unit)
    (batches : list (list PerformanceEventTiming * Z)) (d : Q) :
  batches <> [] ->
  Forall (fun bt => (0 <= snd bt - epochCount < 50)%Z) batches ->
  Epoch.longestDuration (concat (map fst batches)) = Some d ->
  (value (Reporter.metric
            (OnINP.bound
               (OnINP.idleBatches rac batches
                  (OnINP.mkState b (Epoch.started history epochCount)))))
   == d)%Q.
Proof.
  intros Hne Hcounts Hd.
  destruct (exists_last Hne) as (bs & [batch n] & ->).
  apply Forall_app in Hcounts as [_ Hlast].
  inversion Hlast as [|? ? Hn _]; subst. simpl in Hn.
  unfold OnINP.idleBatches. rewrite fold_left_app. simpl.
  fold (OnINP.idleBatches rac bs (OnINP.mkState b (Epoch.started history epochCount))).
  set (mid := OnINP.idleBatches rac bs
                (OnINP.mkState b (Epoch.started history epochCount))).
  assert (Hmid : OnINP.interactions mid
                 = Interactions.run (map Interactions.Process (concat (map fst bs)))
                     (Epoch.started history epochCount))
    by apply idleBatches_interactions.
  assert (Hints : OnINP.interactions (OnINP.idleBatch rac batch n mid)
                  = Interactions.run
                      (map Interactions.Process (concat (map fst (bs ++ [(batch, n)]))))
                      (Epoch.started history epochCount)).
  { rewrite idleBatch_interactions, Hmid, map_app, concat_app, map_app.
    simpl. rewrite app_nil_r. unfold Interactions.run.
    rewrite fold_left_app. reflexivity. }
  assert (Ht : Epoch.tracks (OnINP.interactions (OnINP.idleBatch rac batch n mid))
                 (Some d)).
  { rewrite Hints, <- Hd. apply tracks_run, tracks_started. }
  destruct Ht as (Hs & Hsort & Hlong).
  destruct (isLongest_head _ _ _ Hsort Hlong) as (r & tl & Hlist & Hr).
  assert (Hest : Interactions.estimateP98LongestInteraction n
                   (OnINP.interactions (OnINP.idleBatch rac batch n mid)) = Some r).
  { rewrite estimate_small_count; [rewrite Hlist; reflexivity|].
    rewrite Hints, run_process_keeps_count. exact Hn. }
  rewrite <- Hr. apply idleBatch_value; [|exact Hest].
  rewrite Hmid. apply synced_run, synced_reset.
Qed.

Lemma inp_value_follows_estimate_witness :
  (value
     (Reporter.metric
        (OnINP.bound
           (OnINP.idleBatch (Some true) [Trace.click 28 500 60] 4
              (OnINP.mkState
                 (Reporter.bindReporter [] (initMetric INP None Sample.page))
                 Trace.three))))
   == 500)%Q.
Proof.
  assert (Hest : Interactions.estimateP98LongestInteraction 4
                   (OnINP.interactions
                      (OnINP.idleBatch (Some true) [Trace.click 28 500 60] 4
                         (OnINP.mkState
                            (Reporter.bindReporter [] (initMetric INP None Sample.page))
                            Trace.three)))
                 = Some 4%positive)
    by (vm_compute; reflexivity).
  rewrite (inp_value_follows_estimate (Some true)
             [Interactions.Process (Trace.click 7 80 10);
              Interactions.Process (Trace.click 14 200 30);
              Interactions.Process (Trace.click 21 120 50)]
             (Reporter.bindReporter [] (initMetric INP None Sample.page))
             [Trace.click 28 500 60] 4 4%positive Hest).
  vm_compute. reflexivity.
Defined.

Lemma inp_below_fifty_is_longest_duration_witness :
  (value
     (Reporter.metric
        (OnINP.bound
           (OnINP.idleBatches None
              [([Trace.click 7 80 10; Trace.click 0 900 1], 1%Z);
               ([mkEventTiming None "first-input" 700 5; Trace.click 14 200 30], 3%Z)]
              (OnINP.mkState
                 (Reporter.bindReporter [] (initMetric INP None Sample.page))
                 (Epoch.started [] 0)))))
   == 700)%Q.
Proof.
  apply (inp_below_fifty_is_longest_duration None [] 0).
  - discriminate.
  - repeat constructor; simpl; lia.
  - vm_compute. reflexivity.
Defined.

Example twelve_longest :
  Epoch.longestLatency Trace.twelve = Some 300%Q.
Proof. vm_compute. reflexivity. Qed.

(** ** The visibility watcher *)

Section VisibilityFacts.

Import Visibility.
Local Open Scope Q_scope.

Lemma initialised_not_below st : initialised st -> below (firstHiddenTime st) 0 = false.
Proof.
  unfold initialised, below. destruct (firstHiddenTime st) as [t|]; [|reflexivity].
  intros H. apply NumFacts.ltb_false. exact H.
Qed.

Lemma initialised_init d : initialised (mkState (initHiddenTime d) true true).
Proof.
  unfold initialised, initHiddenTime. simpl.
  destruct (hidden d && negb (prerendering d)); simpl; [lra|exact I].
Qed.

Lemma initialised_step st ev :
  stamped ev -> initialised st -> initialised (step st ev).
Proof.
  intros Hev Hst. destruct ev as [d ty ts|d|d]; simpl in *.
  - destruct (listening st); [|exact Hst].
    unfold onVisibilityUpdate. destruct (_ && _); [|exact Hst].
    unfold initialised. simpl. destruct ty; [exact Hev|lra].
  - destruct (restoring st); [|exact Hst].
    unfold initialised, initHiddenTime. simpl.
    destruct (hidden d && negb (prerendering d)); simpl; [lra|exact I].
  - unfold getVisibilityWatcher. rewrite initialised_not_below by exact Hst.
    exact Hst.
Qed.

End VisibilityFacts.

(** X17.  Once [getVisibilityWatcher] has been called, [firstHiddenTime] is
    never negative again, whatever visibility events, restoration timers and
    further calls follow (time stamps being non-negative); so the
    initialisation runs once, and a later call changes nothing. *)
Theorem watcher_initialised_once (d d' : Visibility.Document)
    (evs : list Visibility.Event) :
  Forall Visibility.stamped evs ->
  let st := Visibility.run evs (Visibility.getVisibilityWatcher d Visibility.initial) in
  Visibility.initialised st /\ Visibility.getVisibilityWatcher d' st = st.
Proof.
  intros Hevs st.
  assert (Hinit : Visibility.initialised st).
  { unfold st.
    assert (H0 : Visibility.initialised
                   (Visibility.getVisibilityWatcher d Visibility.initial))
      by apply initialised_init.
    revert H0. generalize (Visibility.getVisibilityWatcher d Visibility.initial).
    induction Hevs as [|ev evs Hev _ IH]; intros s Hs; [exact Hs|].
    simpl. apply IH, initialised_step; assumption. }
  split; [exact Hinit|].
  unfold Visibility.getVisibilityWatcher.
  rewrite initialised_not_below by exact Hinit. reflexivity.
Qed.

Lemma watcher_initialised_once_witness :
  Visibility.getVisibilityWatcher (Visibility.mkDocument true false)
    (Visibility.run
       [Visibility.Change (Visibility.mkDocument true false)
          Visibility.visibilitychange 1500]
       (Visibility.getVisibilityWatcher (Visibility.mkDocument false false)
          Visibility.initial))
  = Visibility.run
      [Visibility.Change (Visibility.mkDocument true false)
         Visibility.visibilitychange 1500]
      (Visibility.getVisibilityWatcher (Visibility.mkDocument false false)
         Visibility.initial).
Proof.
  apply (watcher_initialised_once (Visibility.mkDocument false false)
           (Visibility.mkDocument true false)
           [Visibility.Change (Visibility.mkDocument true false)
              Visibility.visibilitychange 1500]).
  repeat constructor. simpl. lra.
Defined.

(** X18.  When an initialised watcher that still listens sees the document
    become hidden, [firstHiddenTime] becomes the time stamp of that
    [visibilitychange] event, also when the page had started hidden (value
    [0]), and no later visibility event or watcher call changes it: only the
    timer of a cache restoration re-arms the watcher. *)
Theorem first_hide_fixes_time (st : Visibility.State) (d : Visibility.Document)
    (timeStamp : Q) (evs : list Visibility.Event) :
  Visibility.listening st = true -> Visibility.initialised st ->
  Visibility.hidden d = true -> (0 <= timeStamp)%Q ->
  forallb Visibility.sameEpoch evs = true ->
  Visibility.firstHiddenTime
    (Visibility.run evs
       (Visibility.step st (Visibility.Change d Visibility.visibilitychange timeStamp)))
  = Finite timeStamp.
Proof.
  intros Hl Hi Hd Hts Hevs. simpl. rewrite Hl.
  unfold Visibility.onVisibilityUpdate. rewrite Hd.
  assert (Ha : Visibility.above (Visibility.firstHiddenTime st) (-1) = true).
  { unfold Visibility.initialised in Hi. unfold Visibility.above.
    destruct (Visibility.firstHiddenTime st) as [t|]; [|reflexivity].
    apply NumFacts.gtb_true. lra. }
  rewrite Ha. simpl.
  generalize (Visibility.restoring st). intros rs.
  induction evs as [|ev evs IH]; [reflexivity|].
  simpl in Hevs. apply andb_true_iff in Hevs as [Hev Hevs].
  simpl.
  assert (Hstep : Visibility.step (Visibility.mkState (Finite timeStamp) false rs) ev
                  = Visibility.mkState (Finite timeStamp) false rs).
  { destruct ev as [d0 ty ts|d0|d0]; simpl in *; [reflexivity|discriminate|].
    unfold Visibility.getVisibilityWatcher. simpl.
    assert (Hb : Num.ltb timeStamp 0 = false) by (apply NumFacts.ltb_false; exact Hts).
    rewrite Hb. reflexivity. }
  rewrite Hstep. apply IH, Hevs.
Qed.

Lemma first_hide_fixes_time_witness :
  Visibility.firstHiddenTime
    (Visibility.run
       [Visibility.Change (Visibility.mkDocument false false)
          Visibility.visibilitychange 7000;
        Visibility.Change (Visibility.mkDocument true false)
          Visibility.visibilitychange 9000]
       (Visibility.step
          (Visibility.getVisibilityWatcher (Visibility.mkDocument true false)
             Visibility.initial)
          (Visibility.Change (Visibility.mkDocument true false)
             Visibility.visibilitychange 5000)))
  = Finite 5000.
Proof.
  apply first_hide_fixes_time; try reflexivity.
  - vm_compute. discriminate.
  - vm_compute. discriminate.
Defined.

(** ** [onFCP] *)

Section FCPFacts.

Import OnFCP.
Local Open Scope Q_scope.

Lemma emit_calls_length {E} th rac force (b : Reporter.Bound E) :
  (length (Reporter.calls (Reporter.emit th rac force b))
   <= S (length (Reporter.calls b)))%nat.
Proof.
  destruct (emit_calls th rac force b) as [->|[[d ->]|(_ & _ & m' & _ & ->)]];
    simpl; try lia.
  rewrite length_app. simpl. lia.
Qed.

Lemma countFCP_cons e es :
  countFCP (e :: es)
  = ((if String.eqb (paint_name e) "first-contentful-paint" then 1 else 0)
     + countFCP es)%nat.
Proof.
  unfold countFCP. rewrite filter_cons.
  destruct (decide (paint_name e = "first-contentful-paint")) as [H|H].
  - apply String.eqb_eq in H. rewrite H. reflexivity.
  - apply String.eqb_neq in H. rewrite H. reflexivity.
Qed.

(** A batch without a first contentful paint does nothing. *)
Lemma no_fcp_no_change rac fht env es : forall st,
  countFCP es = 0%nat -> handleEntries rac fht env es st = st.
Proof.
  induction es as [|e es IH]; intros st Hc; [reflexivity|].
  rewrite countFCP_cons in Hc. unfold handleEntries in *. simpl.
  unfold handleEntry at 2.
  destruct (String.eqb (paint_name e) "first-contentful-paint"); [lia|].
  apply IH. lia.
Qed.

(** The one first contentful paint of a batch disconnects the observer and
    reports at most once. *)
Lemma one_fcp rac fht env es : forall st,
  (countFCP es <= 1)%nat ->
  Reporter.calls (bound st) = [] ->
  (handleEntries rac fht env es st = st
   \/ (connected (handleEntries rac fht env es st) = false
       /\ (length (Reporter.calls (bound (handleEntries rac fht env es st))) <= 1)%nat)).
Proof.
  induction es as [|e es IH]; intros st Hc Hlog; [left; reflexivity|].
  rewrite countFCP_cons in Hc.
  change (handleEntries rac fht env (e :: es) st)
    with (handleEntries rac fht env es (handleEntry rac fht env st e)).
  unfold handleEntry.
  destruct (String.eqb (paint_name e) "first-contentful-paint").
  - right. rewrite no_fcp_no_change by lia.
    destruct (Visibility.before _ _); simpl.
    + split; [reflexivity|].
      etransitivity; [apply emit_calls_length|]. simpl. rewrite Hlog. simpl. lia.
    + split; [reflexivity|]. rewrite Hlog. simpl. lia.
  - apply IH; [lia|exact Hlog].
Qed.

End FCPFacts.

(** X19.  For one page load, whatever batches of paint entries the observer
    delivers (each with at most one entry named [first-contentful-paint]) and
    whatever [firstHiddenTime] reads at each delivery, the consumer of
    [onFCP] is invoked at most once: the first such entry disconnects the
    observer. *)
Theorem fcp_reported_at_most_once (rac : option bool) (env : Env)
    (batches : list (Time * list PaintEntry)) :
  Forall (fun b => (OnFCP.countFCP (snd b) <= 1)%nat) batches ->
  (length (Reporter.calls
             (OnFCP.bound
                (fold_left (OnFCP.deliver rac env) batches (OnFCP.activate env))))
   <= 1)%nat.
Proof.
  intros Hb.
  assert (H0 : (OnFCP.connected (OnFCP.activate env) = true
                /\ Reporter.calls (OnFCP.bound (OnFCP.activate env)) = [])
               \/ (OnFCP.connected (OnFCP.activate env) = false
                   /\ (length (Reporter.calls (OnFCP.bound (OnFCP.activate env)))
                       <= 1)%nat))
    by (left; split; reflexivity).
  revert H0. generalize (OnFCP.activate env).
  induction Hb as [|[fht es] bs Hc _ IH]; intros st Hst.
  - simpl. destruct Hst as [[_ ->]|[_ H]]; [simpl; lia|exact H].
  - simpl. apply IH. unfold OnFCP.deliver. simpl in *.
    destruct Hst as [[Hcon Hlog]|[Hcon Hlen]].
    + rewrite Hcon.
      destruct (one_fcp rac fht env es st Hc Hlog) as [->|H].
      * left. split; assumption.
      * right. exact H.
    + rewrite Hcon. right. split; assumption.
Qed.

Lemma fcp_reported_at_most_once_witness :
  (length (Reporter.calls
             (OnFCP.bound
                (fold_left (OnFCP.deliver (Some true) Sample.page)
                   [(Infinity, [mkPaintEntry "first-paint" 300;
                                mkPaintEntry "first-contentful-paint" 450]);
                    (Infinity, [mkPaintEntry "first-contentful-paint" 900])]
                   (OnFCP.activate Sample.page))))
   <= 1)%nat.
Proof.
  apply fcp_reported_at_most_once.
  repeat constructor.
Defined.

(** X20.  A first contentful paint that starts at or after [firstHiddenTime]
    is not reported, and since it disconnects the observer all the same,
    nothing that is delivered later in that page load is reported either. *)
Theorem fcp_after_first_hide_is_lost (rac : option bool) (env : Env)
    (firstHidden : Q) (before after : list PaintEntry) (late : PaintEntry)
    (later : list (Time * list PaintEntry)) :
  OnFCP.countFCP before = 0%nat ->
  paint_name late = "first-contentful-paint" ->
  (firstHidden <= paint_startTime late)%Q ->
  OnFCP.countFCP after = 0%nat ->
  Reporter.calls
    (OnFCP.bound
       (fold_left (OnFCP.deliver rac env)
          ((Finite firstHidden, before ++ late :: after) :: later)
          (OnFCP.activate env)))
  = [].
Proof.
  intros Hb Hname Hlate Ha. simpl fold_left.
  assert (Hfirst : OnFCP.deliver rac env (OnFCP.activate env)
                     (Finite firstHidden, before ++ late :: after)
                   = OnFCP.mkState (OnFCP.bound (OnFCP.activate env)) false).
  { unfold OnFCP.deliver. simpl fst. simpl snd.
    change (OnFCP.connected (OnFCP.activate env)) with true. cbv iota.
    unfold OnFCP.handleEntries. rewrite fold_left_app.
    fold (OnFCP.handleEntries rac (Finite firstHidden) env before (OnFCP.activate env)).
    rewrite no_fcp_no_change by exact Hb.
    simpl fold_left.
    fold (OnFCP.handleEntries rac (Finite firstHidden) env after
            (OnFCP.handleEntry rac (Finite firstHidden) env (OnFCP.activate env) late)).
    rewrite no_fcp_no_change by exact Ha.
    unfold OnFCP.handleEntry. rewrite Hname. simpl String.eqb. cbv iota.
    unfold Visibility.before.
    apply NumFacts.ltb_false in Hlate. rewrite Hlate. reflexivity. }
  rewrite Hfirst.
  induction later as [|b bs IH]; [reflexivity|].
  simpl. unfold OnFCP.deliver at 2. simpl. exact IH.
Qed.

Lemma fcp_after_first_hide_is_lost_witness :
  Reporter.calls
    (OnFCP.bound
       (fold_left (OnFCP.deliver (Some true) Sample.page)
          [(Finite 400, [mkPaintEntry "first-paint" 300]
                        ++ mkPaintEntry "first-contentful-paint" 450 :: []);
           (Infinity, [mkPaintEntry "first-contentful-paint" 900])]
          (OnFCP.activate Sample.page)))
  = [].
Proof.
  apply fcp_after_first_hide_is_lost; try reflexivity.
  vm_compute. discriminate.
Defined.



(** ** [onLCP] *)

Section LCPFacts.

Import OnLCP.

Lemma id_emit {E} th rac force (b : Reporter.Bound E) :
  id (Reporter.metric (Reporter.emit th rac force b)) = id (Reporter.metric b).
Proof.
  unfold Reporter.emit.
  repeat match goal with |- context [if ?c then _ else _] => destruct c end;
    reflexivity.
Qed.

Lemma handleEntry_keeps rac fht env st e :
  id (Reporter.metric (bound (handleEntry rac fht env st e)))
  = id (Reporter.metric (bound st))
  /\ reportedMetricIDs (handleEntry rac fht env st e) = reportedMetricIDs st.
Proof.
  unfold handleEntry. destruct (Visibility.before _ _); [|split; reflexivity].
  simpl. rewrite id_emit. split; reflexivity.
Qed.

Lemma handleEntries_keeps rac fht env es st :
  id (Reporter.metric (bound (handleEntries rac fht env es st)))
  = id (Reporter.metric (bound st))
  /\ reportedMetricIDs (handleEntries rac fht env es st) = reportedMetricIDs st.
Proof.
  unfold handleEntries. generalize (if Num.truthy rac then es else lastOnly es).
  intros l. revert st. induction l as [|e l IH]; intros st; [split; reflexivity|].
  simpl. destruct (IH (handleEntry rac fht env st e)) as [-> ->].
  apply handleEntry_keeps.
Qed.

(** Without [reportAllChanges] the deliveries only update the record. *)
Lemma handleEntries_silent rac fht env es st :
  Num.truthy rac = false ->
  Reporter.calls (bound (handleEntries rac fht env es st)) = Reporter.calls (bound st)
  /\ Reporter.prevValue (bound (handleEntries rac fht env es st))
     = Reporter.prevValue (bound st).
Proof.
  intros Hrac. unfold handleEntries. rewrite Hrac.
  generalize (lastOnly es). intros l. revert st.
  induction l as [|e l IH]; intros st; [split; reflexivity|].
  simpl. destruct (IH (handleEntry rac fht env st e)) as [-> ->].
  unfold handleEntry. destruct (Visibility.before _ _); [|split; reflexivity].
  simpl. rewrite emit_unforced by (exact Hrac || reflexivity).
  split; reflexivity.
Qed.

End LCPFacts.

(** X22.  The body of [stopListening] runs its flush and forced report at
    most once per record: a second call, with whatever pending entries and
    page state, leaves everything as the first call left it (the record's id
    is in [reportedMetricIDs]), so the consumer is not invoked again. *)
Theorem lcp_stop_runs_once (rac : option bool) (fht fht' : Time) (env env' : Env)
    (pending pending' : list LargestContentfulPaint) (st : OnLCP.State) :
  OnLCP.stopListening rac fht' env' pending'
    (OnLCP.stopListening rac fht env pending st)
  = OnLCP.stopListening rac fht env pending st.
Proof.
  unfold OnLCP.stopListening at 2 3.
  destruct (bool_decide (id (Reporter.metric (OnLCP.bound st))
                         ∈ OnLCP.reportedMetricIDs st)) eqn:D.
  - unfold OnLCP.stopListening. rewrite D. reflexivity.
  - unfold OnLCP.stopListening. simpl. rewrite id_emit.
    rewrite bool_decide_eq_true_2; [reflexivity|].
    apply elem_of_union. left. apply elem_of_singleton. reflexivity.
Qed.

(** X23.  Without [reportAllChanges], the deliveries of the
    largest-contentful-paint observer never invoke the consumer, however
    many candidates arrive; the consumer hears of LCP for the first time
    when [stopListening] runs, and then at most once. *)
Theorem lcp_silent_until_stopped (rac : option bool) (env : Env)
    (reported : gset positive)
    (batches : list (Time * list LargestContentfulPaint))
    (fht : Time) (pending : list LargestContentfulPaint) :
  Num.truthy rac = false ->
  let st := fold_left (fun s b => OnLCP.handleEntries rac (fst b) env (snd b) s)
              batches (OnLCP.activate env reported) in
  Reporter.calls (OnLCP.bound st) = []
  /\ (length (Reporter.calls (OnLCP.bound (OnLCP.stopListening rac fht env pending st)))
      <= 1)%nat.
Proof.
  intros Hrac st.
  assert (Hst : Reporter.calls (OnLCP.bound st) = []).
  { unfold st. 
    assert (H0 : Reporter.calls (OnLCP.bound (OnLCP.activate env reported)) = [])
      by reflexivity.
    revert H0. generalize (OnLCP.activate env reported).
    induction batches as [|[f es] bs IH]; intros s Hs; [exact Hs|].
    simpl. apply IH.
    destruct (handleEntries_silent rac f env es s Hrac) as [-> _]. exact Hs. }
  split; [exact Hst|].
  unfold OnLCP.stopListening. destruct (bool_decide _).
  - rewrite Hst. simpl. lia.
  - simpl. etransitivity; [apply emit_calls_length|].
    destruct (handleEntries_silent rac fht env pending st Hrac) as [-> _].
    rewrite Hst. simpl. lia.
Qed.

Lemma lcp_silent_until_stopped_witness :
  Reporter.calls
    (OnLCP.bound
       (fold_left (fun s b => OnLCP.handleEntries None (fst b) Sample.page (snd b) s)
          [(Infinity, [mkLCP 800; mkLCP 1500]); (Infinity, [mkLCP 2100])]
          (OnLCP.activate Sample.page ∅)))
  = [].
Proof.
  apply (lcp_silent_until_stopped None Sample.page ∅
           [(Infinity, [mkLCP 800; mkLCP 1500]); (Infinity, [mkLCP 2100])]
           Infinity []).
  reflexivity.
Defined.

Example lcp_stop_reports_last_candidate :
  map value
    (Reporter.calls
       (OnLCP.bound
          (OnLCP.stopListening None Infinity Sample.page [mkLCP 2100]
             (OnLCP.handleEntries None Infinity Sample.page [mkLCP 800; mkLCP 1500]
                (OnLCP.activate Sample.page ∅)))))
  = [2100%Q].
Proof. vm_compute. reflexivity. Qed.

(** ** [getLoadState], [onLoad] and [generateUniqueID] *)

(** X24.  Once the document has left the [loading] ready state and the
    navigation entry has ordered, non-zero milestones
    ([0 < domInteractive <= domContentLoadedEventStart <= domComplete]),
    [getLoadState] answers [loading] for a time stamp before [domInteractive],
    [complete] for one from [domInteractive] up to
    [domContentLoadedEventStart] inclusive, and [dom-interactive] for every
    later one; it never answers [dom-content-loaded]. *)
Theorem getLoadState_ordered_milestones (n : LoadTimings) (timestamp : Q) :
  (0 < domInteractive n)%Q ->
  (domInteractive n <= domContentLoadedEventStart n)%Q ->
  (domContentLoadedEventStart n <= domComplete n)%Q ->
  ((timestamp < domInteractive n)%Q ->
   getLoadState false (Some n) timestamp = loading)
  /\ ((domInteractive n <= timestamp)%Q ->
      (timestamp <= domContentLoadedEventStart n)%Q ->
      getLoadState false (Some n) timestamp = complete)
  /\ ((domContentLoadedEventStart n < timestamp)%Q ->
      getLoadState false (Some n) timestamp = dom_interactive)
  /\ getLoadState false (Some n) timestamp <> dom_content_loaded.
Proof.
  intros Hi Hd Hc. unfold getLoadState.
  assert (Hnz : forall x, (0 < x)%Q -> Num.eqb x 0 = false).
  { intros x Hx. destruct (Num.eqb x 0) eqn:Hz; [|reflexivity].
    apply NumFacts.eqb_true in Hz. lra. }
  assert (Hz1 : Num.eqb (domContentLoadedEventStart n) 0 = false)
    by (apply Hnz; lra).
  assert (Hz2 : Num.eqb (domComplete n) 0 = false) by (apply Hnz; lra).
  rewrite Hz1, Hz2. simpl.
  destruct (Num.ltb timestamp (domInteractive n)) eqn:A.
  - apply NumFacts.ltb_true in A.
    split; [reflexivity|]. split; [intros; lra|]. split; [intros; lra|discriminate].
  - apply NumFacts.ltb_false in A.
    destruct (Num.ltb (domContentLoadedEventStart n) timestamp) eqn:B.
    + apply NumFacts.ltb_true in B.
      split; [intros; lra|]. split; [intros; lra|]. split; [reflexivity|discriminate].
    + apply NumFacts.ltb_false in B.
      assert (C : Num.gtb timestamp (domComplete n) = false)
        by (apply NumFacts.gtb_false; lra).
      rewrite C.
      split; [intros; lra|]. split; [reflexivity|]. split; [intros; lra|discriminate].
Qed.

Lemma getLoadState_ordered_milestones_witness :
  getLoadState false (Some (mkLoadTimings 400 650 1200)) 500 = complete
  /\ getLoadState false (Some (mkLoadTimings 400 650 1200)) 2000 = dom_interactive.
Proof.
  destruct (getLoadState_ordered_milestones (mkLoadTimings 400 650 1200) 500)
    as (_ & H1 & _); try (vm_compute; reflexivity || discriminate).
  destruct (getLoadState_ordered_milestones (mkLoadTimings 400 650 1200) 2000)
    as (_ & _ & H2 & _); try (vm_compute; reflexivity || discriminate).
  split.
  - apply H1; vm_compute; discriminate.
  - apply H2. vm_compute. reflexivity.
Defined.

(** X25.  [onLoad] hands the consumer one [LOAD] record whose value is
    positive whenever [performance.now()] is; and when the load event has
    not ended yet ([loadEventEnd] is [0], as inside a [load] listener) with a
    non-negative [connectStart], or when there is no navigation entry, that
    value is [performance.now()]. *)
Theorem onLoad_value (navigationEntries : list LoadEntry) (now : Q) :
  (0 < now)%Q ->
  fst (onLoad navigationEntries now) = "LOAD"
  /\ (0 < snd (onLoad navigationEntries now))%Q
  /\ (match navigationEntries with
      | entry :: _ =>
          (loadEventEnd entry == 0)%Q -> (0 <= connectStart entry)%Q ->
          snd (onLoad navigationEntries now) = now
      | [] => snd (onLoad navigationEntries now) = now
      end).
Proof.
  intros Hnow. unfold onLoad.
  destruct navigationEntries as [|entry rest]; simpl.
  - repeat split. exact Hnow.
  - split; [reflexivity|].
    destruct (Qle_bool (loadEventEnd entry - connectStart entry) 0) eqn:L.
    + split; [exact Hnow|]. intros; reflexivity.
    + split.
      * destruct (Qlt_le_dec 0 (loadEventEnd entry - connectStart entry)) as [H|H];
          [exact H|].
        apply Qle_bool_iff in H. congruence.
      * intros He Hc. exfalso.
        assert (H : (loadEventEnd entry - connectStart entry <= 0)%Q) by lra.
        apply Qle_bool_iff in H. congruence.
Qed.

Lemma onLoad_value_witness :
  snd (onLoad [mkLoadEntry 0 35] 1840) = 1840%Q.
Proof.
  destruct (onLoad_value [mkLoadEntry 0 35] 1840) as (_ & _ & H).
  - vm_compute. reflexivity.
  - apply H; vm_compute; reflexivity || discriminate.
Defined.

(** X26.  For every value of [Math.random()] (at least [0], below [1]) the
    number after the second dash of a generated identifier has exactly
    thirteen digits: it is at least [10^12] and below [10^13]. *)
Theorem uniqueSuffix_thirteen_digits (random : Q) :
  (0 <= random)%Q -> (random < 1)%Q ->
  (10 ^ 12 <= uniqueSuffix random < 10 ^ 13)%Z.
Proof.
  intros H0 H1. unfold uniqueSuffix.
  set (c := (9000000000000 - 1)%Z).
  assert (Hc : (0 < inject_Z c)%Q) by (vm_compute; reflexivity).
  assert (Hlo : (0 <= random * inject_Z c)%Q) by (apply Qmult_le_0_compat; lra).
  assert (Hhi : (random * inject_Z c < inject_Z c)%Q).
  { assert (H : (random * inject_Z c < 1 * inject_Z c)%Q)
      by (apply Qmult_lt_compat_r; assumption).
    rewrite Qmult_1_l in H. exact H. }
  assert (Hf0 : (0 <= Qfloor (random * inject_Z c))%Z).
  { change 0%Z with (Qfloor 0). apply Qfloor_resp_le. exact Hlo. }
  assert (Hf1 : (Qfloor (random * inject_Z c) < c)%Z).
  { rewrite Zlt_Qlt. eapply Qle_lt_trans; [apply Qfloor_le|exact Hhi]. }
  change (10 ^ 12)%Z with 1000000000000%Z.
  change (10 ^ 13)%Z with 10000000000000%Z.
  clear Hc Hlo Hhi. subst c.
  set (f := Qfloor (random * inject_Z (9000000000000 - 1))) in *. lia.
Qed.

Lemma uniqueSuffix_thirteen_digits_witness :
  (10 ^ 12 <= uniqueSuffix (999 # 1000) < 10 ^ 13)%Z.
Proof.
  apply uniqueSuffix_thirteen_digits; vm_compute; reflexivity || discriminate.
Defined.
